(** * nodefertest: the defer-in-test detector, embedded and verified

    The analyzer of [nodefertest.go] walks the syntax trees of a package
    and reports every [defer] statement found in a test or benchmark
    function, or in a function literal taking a [*testing.T] / [*testing.B]
    inside one.

    The development has four parts:
    - the syntax trees of [go/ast] and the traversal [ast.Inspect];
    - the five functions of [nodefertest.go];
    - reference definitions written from the specification, and the
      fixtures of the test data;
    - the proofs, ending with the properties C1 to C10. *)

From Stdlib Require Import List String Ascii ZArith Bool Lia.
Import ListNotations.
Local Open Scope string_scope.
Local Open Scope bool_scope.

Set Implicit Arguments.

(** ** Syntax trees ([go/ast])

    One constructor per node kind of [go/ast].  Fields that [go/ast]
    documents as "or nil" are options; so are the three pointers the
    analyzer's own nil tests and calls are about ([FuncLit.Type],
    [FuncLit.Body], [FuncType.Params]).  [DeclStmt.Decl] is a [GenDecl],
    the only declaration [go/ast] allows in a statement, so function
    declarations stand at the top of a file only.  Token positions other
    than [DeferStmt.Defer], comment groups and resolver links ([Ident.Obj],
    [File.Scope]) are not part of the model: the analyzer reads none of
    them, and the traversal finds no statement below them. *)

Definition Pos := Z.       (* token.Pos *)
Definition Token := Z.     (* token.Token *)
Definition ChanDir := Z.   (* ast.ChanDir *)
Bind Scope Z_scope with Pos Token ChanDir.

Record Ident := mkIdent { Ident_Name : string }.

Record BasicLit := mkBasicLit { BasicLit_Kind : Token; BasicLit_Value : string }.

Scheme All for list.
Scheme All for option.

Inductive Expr : Type :=
  | BadExpr
  | EIdent (id : Ident)
  | Ellipsis (Elt : option Expr)
  | EBasicLit (lit : BasicLit)
  | EFuncLit (lit : FuncLit)
  | CompositeLit (Type_ : option Expr) (Elts : list Expr)
  | ParenExpr (X : Expr)
  | SelectorExpr (X : Expr) (Sel : Ident)
  | IndexExpr (X Index : Expr)
  | IndexListExpr (X : Expr) (Indices : list Expr)
  | SliceExpr (X : Expr) (Low High Max : option Expr) (Slice3 : bool)
  | TypeAssertExpr (X : Expr) (Type_ : option Expr)
  | ECallExpr (call : CallExpr)
  | StarExpr (X : Expr)
  | UnaryExpr (Op : Token) (X : Expr)
  | BinaryExpr (X : Expr) (Op : Token) (Y : Expr)
  | KeyValueExpr (Key Value : Expr)
  | ArrayType (Len : option Expr) (Elt : Expr)
  | StructType (Fields : FieldList)
  | EFuncType (ft : FuncType)
  | InterfaceType (Methods : FieldList)
  | MapType (Key Value : Expr)
  | ChanType (Dir : ChanDir) (Value : Expr)
with FuncLit : Type :=
  | mkFuncLit (Type_ : option FuncType) (Body : option BlockStmt)
with CallExpr : Type :=
  | mkCallExpr (Fun : Expr) (Args : list Expr)
with FuncType : Type :=
  | mkFuncType (TypeParams Params Results : option FieldList)
with FieldList : Type :=
  | mkFieldList (List_ : list Field)
with Field : Type :=
  | mkField (Names : list Ident) (Type_ : option Expr) (Tag : option BasicLit)
with Stmt : Type :=
  | BadStmt
  | DeclStmt (Decl : GenDecl)
  | EmptyStmt
  | LabeledStmt (Label : Ident) (Stmt_ : Stmt)
  | ExprStmt (X : Expr)
  | SendStmt (Chan Value : Expr)
  | IncDecStmt (X : Expr) (Tok : Token)
  | AssignStmt (Lhs : list Expr) (Tok : Token) (Rhs : list Expr)
  | GoStmt (Call : CallExpr)
  | DeferStmt (Defer : Pos) (Call : CallExpr)
  | ReturnStmt (Results : list Expr)
  | BranchStmt (Tok : Token) (Label : option Ident)
  | SBlockStmt (block : BlockStmt)
  | IfStmt (Init : option Stmt) (Cond : Expr) (Body : BlockStmt) (Else : option Stmt)
  | CaseClause (List_ : list Expr) (Body : list Stmt)
  | SwitchStmt (Init : option Stmt) (Tag : option Expr) (Body : BlockStmt)
  | TypeSwitchStmt (Init : option Stmt) (Assign : Stmt) (Body : BlockStmt)
  | CommClause (Comm : option Stmt) (Body : list Stmt)
  | SelectStmt (Body : BlockStmt)
  | ForStmt (Init : option Stmt) (Cond : option Expr) (Post : option Stmt) (Body : BlockStmt)
  | RangeStmt (Key Value : option Expr) (Tok : Token) (X : Expr) (Body : BlockStmt)
with BlockStmt : Type :=
  | mkBlockStmt (List_ : list Stmt)
with GenDecl : Type :=
  | mkGenDecl (Tok : Token) (Specs : list Spec)
with Spec : Type :=
  | ImportSpec (Name : option Ident) (Path : BasicLit)
  | ValueSpec (Names : list Ident) (Type_ : option Expr) (Values : list Expr)
  | TypeSpec (Name : Ident) (TypeParams : option FieldList) (Type_ : Expr).

Scheme Expr_mind := Induction for Expr Sort Prop
  with FuncLit_mind := Induction for FuncLit Sort Prop
  with CallExpr_mind := Induction for CallExpr Sort Prop
  with FuncType_mind := Induction for FuncType Sort Prop
  with FieldList_mind := Induction for FieldList Sort Prop
  with Field_mind := Induction for Field Sort Prop
  with Stmt_mind := Induction for Stmt Sort Prop
  with BlockStmt_mind := Induction for BlockStmt Sort Prop
  with GenDecl_mind := Induction for GenDecl Sort Prop
  with Spec_mind := Induction for Spec Sort Prop.

Combined Scheme ast_mutind from Expr_mind, FuncLit_mind, CallExpr_mind,
  FuncType_mind, FieldList_mind, Field_mind, Stmt_mind, BlockStmt_mind,
  GenDecl_mind, Spec_mind.

Definition FuncLit_Type (lit : FuncLit) : option FuncType :=
  match lit with mkFuncLit ty _ => ty end.
Definition FuncLit_Body (lit : FuncLit) : option BlockStmt :=
  match lit with mkFuncLit _ body => body end.
Definition FuncType_Params (ft : FuncType) : option FieldList :=
  match ft with mkFuncType _ params _ => params end.
Definition FieldList_List (fl : FieldList) : list Field :=
  match fl with mkFieldList l => l end.
Definition Field_Type (field : Field) : option Expr :=
  match field with mkField _ ty _ => ty end.

Record FuncDecl := mkFuncDecl {
  FuncDecl_Recv : option FieldList;
  FuncDecl_Name : Ident;
  FuncDecl_Type : FuncType;
  FuncDecl_Body : option BlockStmt   (* nil for a declaration without body *)
}.

Inductive Decl : Type :=
  | BadDecl
  | DGenDecl (d : GenDecl)
  | DFuncDecl (d : FuncDecl).

Record File := mkFile { File_Name : Ident; File_Decls : list Decl }.

(** [ast.Node]: what the function given to [ast.Inspect] receives.  A nil
    struct pointer stored in the interface is still a node of that dynamic
    type; the two that the traversal can meet are [NilFuncType] and
    [NilBlockStmt]. *)
Inductive Node : Type :=
  | NExpr (e : Expr)
  | NStmt (s : Stmt)
  | NField (f : Field)
  | NFieldList (l : FieldList)
  | NSpec (s : Spec)
  | NDecl (d : Decl)
  | NFile (f : File)
  | NilFuncType
  | NilBlockStmt.

(** ** The analysis pass: reported diagnostics, and failure

    [analysis.Pass] is threaded as state; a run-time panic (here only a nil
    pointer dereference) aborts the computation. *)

Record Diagnostic := mkDiagnostic { Diag_Pos : Pos; Diag_Message : string }.

Record Pass := mkPass { Pass_Files : list File; Pass_Diagnostics : list Diagnostic }.

Inductive Result (A : Type) : Type :=
  | Ok (a : A)
  | Panic.
Arguments Panic {A}.

Definition M (A : Type) : Type := Pass -> Result (A * Pass).

Definition ret {A} (a : A) : M A := fun pass => Ok (a, pass).

Definition bind {A B} (m : M A) (k : A -> M B) : M B :=
  fun pass =>
    match m pass with
    | Ok (a, pass') => k a pass'
    | Panic => Panic
    end.

Definition panic {A} : M A := fun _ => Panic.

Notation "x <- m ;; k" := (bind m (fun x => k))
  (at level 61, m at next level, right associativity).
Notation "m ;; k" := (bind m (fun _ => k))
  (at level 61, right associativity).

(** [pass.Reportf(pos, format)]: the format strings of this analyzer hold
    no verb, so the message is the format itself. *)
Definition Reportf (pos : Pos) (format : string) : M unit :=
  fun pass =>
    Ok (tt, mkPass (Pass_Files pass)
                   (Pass_Diagnostics pass ++ [mkDiagnostic pos format])).

(** ** [ast.Inspect] / [ast.Walk]

    [Walk] calls [f] on the node; when [f] answers true it walks the
    children in source order and then calls [f(nil)].  Optional children
    are skipped when nil.  [FuncLit] is the one node whose children [Walk]
    does not test: a nil [Type] or [Body] reaches [Walk] as a typed nil,
    [f] is called on it, and the field access that follows panics. *)

Definition walkList {A} (w : A -> M unit) : list A -> M unit :=
  fix go (l : list A) : M unit :=
    match l with
    | [] => ret tt
    | x :: xs => w x ;; go xs
    end.

Definition walkOpt {A} (w : A -> M unit) (o : option A) : M unit :=
  match o with
  | Some a => w a
  | None => ret tt
  end.

Section Walk.
Variable f : option Node -> M bool.

Definition visit (n : Node) (children : M unit) : M unit :=
  b <- f (Some n) ;;
  if b then children ;; _ <- f None ;; ret tt else ret tt.

Definition walkNil (n : Node) : M unit :=
  b <- f (Some n) ;; if b then panic else ret tt.

Definition walkPtr {A} (nilNode : Node) (w : A -> M unit) (o : option A) : M unit :=
  match o with
  | Some a => w a
  | None => walkNil nilNode
  end.

Definition walk_Ident (id : Ident) : M unit := visit (NExpr (EIdent id)) (ret tt).
Definition walk_BasicLit (lit : BasicLit) : M unit := visit (NExpr (EBasicLit lit)) (ret tt).

Fixpoint walk_Expr (e : Expr) : M unit :=
  match e with
  | EFuncLit lit => walk_FuncLit lit
  | ECallExpr call => walk_CallExpr call
  | EFuncType ft => walk_FuncType ft
  | EIdent id => walk_Ident id
  | EBasicLit lit => walk_BasicLit lit
  | _ =>
    visit (NExpr e)
      match e with
      | BadExpr | EIdent _ | EBasicLit _ => ret tt
      | EFuncLit _ | ECallExpr _ | EFuncType _ => ret tt
      | Ellipsis Elt => walkOpt walk_Expr Elt
      | CompositeLit Type_ Elts => walkOpt walk_Expr Type_ ;; walkList walk_Expr Elts
      | ParenExpr X => walk_Expr X
      | SelectorExpr X Sel => walk_Expr X ;; walk_Ident Sel
      | IndexExpr X Index => walk_Expr X ;; walk_Expr Index
      | IndexListExpr X Indices => walk_Expr X ;; walkList walk_Expr Indices
      | SliceExpr X Low High Max _ =>
        walk_Expr X ;; walkOpt walk_Expr Low ;; walkOpt walk_Expr High ;;
        walkOpt walk_Expr Max
      | TypeAssertExpr X Type_ => walk_Expr X ;; walkOpt walk_Expr Type_
      | StarExpr X => walk_Expr X
      | UnaryExpr _ X => walk_Expr X
      | BinaryExpr X _ Y => walk_Expr X ;; walk_Expr Y
      | KeyValueExpr Key Value => walk_Expr Key ;; walk_Expr Value
      | ArrayType Len Elt => walkOpt walk_Expr Len ;; walk_Expr Elt
      | StructType Fields => walk_FieldList Fields
      | InterfaceType Methods => walk_FieldList Methods
      | MapType Key Value => walk_Expr Key ;; walk_Expr Value
      | ChanType _ Value => walk_Expr Value
      end
  end
with walk_FuncLit (lit : FuncLit) : M unit :=
  visit (NExpr (EFuncLit lit))
    match lit with
    | mkFuncLit Type_ Body =>
      walkPtr NilFuncType walk_FuncType Type_ ;;
      walkPtr NilBlockStmt walk_BlockStmt Body
    end
with walk_CallExpr (call : CallExpr) : M unit :=
  visit (NExpr (ECallExpr call))
    match call with
    | mkCallExpr Fun Args => walk_Expr Fun ;; walkList walk_Expr Args
    end
with walk_FuncType (ft : FuncType) : M unit :=
  visit (NExpr (EFuncType ft))
    match ft with
    | mkFuncType TypeParams Params Results =>
      walkOpt walk_FieldList TypeParams ;; walkOpt walk_FieldList Params ;;
      walkOpt walk_FieldList Results
    end
with walk_FieldList (l : FieldList) : M unit :=
  visit (NFieldList l)
    match l with
    | mkFieldList List_ => walkList walk_Field List_
    end
with walk_Field (field : Field) : M unit :=
  visit (NField field)
    match field with
    | mkField Names Type_ Tag =>
      walkList walk_Ident Names ;; walkOpt walk_Expr Type_ ;;
      walkOpt walk_BasicLit Tag
    end
with walk_Stmt (s : Stmt) : M unit :=
  match s with
  | SBlockStmt block => walk_BlockStmt block
  | _ =>
    visit (NStmt s)
      match s with
      | BadStmt | EmptyStmt | SBlockStmt _ => ret tt
      | DeclStmt Decl => walk_GenDecl Decl
      | LabeledStmt Label Stmt_ => walk_Ident Label ;; walk_Stmt Stmt_
      | ExprStmt X => walk_Expr X
      | SendStmt Chan Value => walk_Expr Chan ;; walk_Expr Value
      | IncDecStmt X _ => walk_Expr X
      | AssignStmt Lhs _ Rhs => walkList walk_Expr Lhs ;; walkList walk_Expr Rhs
      | GoStmt Call => walk_CallExpr Call
      | DeferStmt _ Call => walk_CallExpr Call
      | ReturnStmt Results => walkList walk_Expr Results
      | BranchStmt _ Label => walkOpt walk_Ident Label
      | IfStmt Init Cond Body Else =>
        walkOpt walk_Stmt Init ;; walk_Expr Cond ;; walk_BlockStmt Body ;;
        walkOpt walk_Stmt Else
      | CaseClause List_ Body => walkList walk_Expr List_ ;; walkList walk_Stmt Body
      | SwitchStmt Init Tag Body =>
        walkOpt walk_Stmt Init ;; walkOpt walk_Expr Tag ;; walk_BlockStmt Body
      | TypeSwitchStmt Init Assign Body =>
        walkOpt walk_Stmt Init ;; walk_Stmt Assign ;; walk_BlockStmt Body
      | CommClause Comm Body => walkOpt walk_Stmt Comm ;; walkList walk_Stmt Body
      | SelectStmt Body => walk_BlockStmt Body
      | ForStmt Init Cond Post Body =>
        walkOpt walk_Stmt Init ;; walkOpt walk_Expr Cond ;; walkOpt walk_Stmt Post ;;
        walk_BlockStmt Body
      | RangeStmt Key Value _ X Body =>
        walkOpt walk_Expr Key ;; walkOpt walk_Expr Value ;; walk_Expr X ;;
        walk_BlockStmt Body
      end
  end
with walk_BlockStmt (block : BlockStmt) : M unit :=
  visit (NStmt (SBlockStmt block))
    match block with
    | mkBlockStmt List_ => walkList walk_Stmt List_
    end
with walk_GenDecl (d : GenDecl) : M unit :=
  visit (NDecl (DGenDecl d))
    match d with
    | mkGenDecl _ Specs => walkList walk_Spec Specs
    end
with walk_Spec (s : Spec) : M unit :=
  visit (NSpec s)
    match s with
    | ImportSpec Name Path => walkOpt walk_Ident Name ;; walk_BasicLit Path
    | ValueSpec Names Type_ Values =>
      walkList walk_Ident Names ;; walkOpt walk_Expr Type_ ;; walkList walk_Expr Values
    | TypeSpec Name TypeParams Type_ =>
      walk_Ident Name ;; walkOpt walk_FieldList TypeParams ;; walk_Expr Type_
    end.

Definition walk_FuncDecl (d : FuncDecl) : M unit :=
  visit (NDecl (DFuncDecl d))
    (walkOpt walk_FieldList (FuncDecl_Recv d) ;;
     walk_Ident (FuncDecl_Name d) ;;
     walk_FuncType (FuncDecl_Type d) ;;
     walkOpt walk_BlockStmt (FuncDecl_Body d)).

Definition walk_Decl (d : Decl) : M unit :=
  match d with
  | BadDecl => visit (NDecl BadDecl) (ret tt)
  | DGenDecl g => walk_GenDecl g
  | DFuncDecl fd => walk_FuncDecl fd
  end.

Definition walk_File (file : File) : M unit :=
  visit (NFile file)
    (walk_Ident (File_Name file) ;; walkList walk_Decl (File_Decls file)).

(** [ast.Inspect(body, f)] for a [body] of static type [*ast.BlockStmt]. *)
Definition Inspect_BlockStmt (body : option BlockStmt) : M unit :=
  walkPtr NilBlockStmt walk_BlockStmt body.

(** [ast.Inspect(file, f)] for a [*ast.File] of [pass.Files]. *)
Definition Inspect_File (file : File) : M unit := walk_File file.
End Walk.

(** ** The analyzer ([nodefertest.go]) *)

Definition deferMessage : string :=
  "use t.Cleanup() instead of defer in test functions to ensure cleanup runs even after t.Fatal/t.FailNow".

(** The [for _, field := range ... Params.List] loop of
    [hasFuncLitTestingTParam]. *)
Fixpoint hasFuncLitTestingTParam_loop (fields : list Field) : bool :=
  match fields with
  | [] => false
  | field :: rest =>
    match Field_Type field with
    | Some (StarExpr (SelectorExpr (EIdent ident) Sel)) =>
      if (Ident_Name ident =? "testing")
         && ((Ident_Name Sel =? "T") || (Ident_Name Sel =? "B"))
      then true
      else hasFuncLitTestingTParam_loop rest
    | _ => hasFuncLitTestingTParam_loop rest
    end
  end.

Definition hasFuncLitTestingTParam (funcLit : FuncLit) : bool :=
  match FuncLit_Type funcLit with
  | None => false
  | Some ty =>
    match FuncType_Params ty with
    | None => false
    | Some params => hasFuncLitTestingTParam_loop (FieldList_List params)
    end
  end.

Definition isTestFunction (funcDecl : FuncDecl) : bool :=
  let name := Ident_Name (FuncDecl_Name funcDecl) in
  if (4 <? String.length name)%nat && (substring 0 4 name =? "Test") then true
  else if (9 <? String.length name)%nat && (substring 0 9 name =? "Benchmark") then true
  else false.

(** The loop of [hasTestingTParam]. *)
Fixpoint hasTestingTParam_loop (fields : list Field) : bool :=
  match fields with
  | [] => false
  | field :: rest =>
    match Field_Type field with
    | Some (StarExpr (SelectorExpr (EIdent ident) Sel)) =>
      if (Ident_Name ident =? "testing")
         && ((Ident_Name Sel =? "T") || (Ident_Name Sel =? "B"))
      then true
      else hasTestingTParam_loop rest
    | _ => hasTestingTParam_loop rest
    end
  end.

Definition hasTestingTParam (funcDecl : FuncDecl) : bool :=
  match FuncType_Params (FuncDecl_Type funcDecl) with
  | None => false
  | Some params =>
    if (List.length (FieldList_List params) =? 0)%nat then false
    else hasTestingTParam_loop (FieldList_List params)
  end.

(** [checkDeferInTestFunc] calls itself from inside the function it hands
    to [ast.Inspect].  The traversal is therefore written out with that
    function in place: at a [DeferStmt] it reports and goes on into the
    call, at a [FuncLit] it starts afresh on the body when the literal
    qualifies and never walks the literal's children, and everywhere else
    it just walks the children.  [checkDeferInTestFunc_Inspect] below
    proves that this is [ast.Inspect] applied to the function of the
    source. *)
Fixpoint check_Expr (e : Expr) : M unit :=
  match e with
  | BadExpr | EIdent _ | EBasicLit _ => ret tt
  | EFuncLit lit => check_FuncLit lit
  | ECallExpr call => check_CallExpr call
  | EFuncType ft => check_FuncType ft
  | Ellipsis Elt => walkOpt check_Expr Elt
  | CompositeLit Type_ Elts => walkOpt check_Expr Type_ ;; walkList check_Expr Elts
  | ParenExpr X => check_Expr X
  | SelectorExpr X _ => check_Expr X
  | IndexExpr X Index => check_Expr X ;; check_Expr Index
  | IndexListExpr X Indices => check_Expr X ;; walkList check_Expr Indices
  | SliceExpr X Low High Max _ =>
    check_Expr X ;; walkOpt check_Expr Low ;; walkOpt check_Expr High ;;
    walkOpt check_Expr Max
  | TypeAssertExpr X Type_ => check_Expr X ;; walkOpt check_Expr Type_
  | StarExpr X => check_Expr X
  | UnaryExpr _ X => check_Expr X
  | BinaryExpr X _ Y => check_Expr X ;; check_Expr Y
  | KeyValueExpr Key Value => check_Expr Key ;; check_Expr Value
  | ArrayType Len Elt => walkOpt check_Expr Len ;; check_Expr Elt
  | StructType Fields => check_FieldList Fields
  | InterfaceType Methods => check_FieldList Methods
  | MapType Key Value => check_Expr Key ;; check_Expr Value
  | ChanType _ Value => check_Expr Value
  end
with check_FuncLit (lit : FuncLit) : M unit :=
  if hasFuncLitTestingTParam lit then
    match lit with
    | mkFuncLit _ (Some body) => check_BlockStmt body
    | mkFuncLit _ None => panic
    end
  else ret tt
with check_CallExpr (call : CallExpr) : M unit :=
  match call with
  | mkCallExpr Fun Args => check_Expr Fun ;; walkList check_Expr Args
  end
with check_FuncType (ft : FuncType) : M unit :=
  match ft with
  | mkFuncType TypeParams Params Results =>
    walkOpt check_FieldList TypeParams ;; walkOpt check_FieldList Params ;;
    walkOpt check_FieldList Results
  end
with check_FieldList (l : FieldList) : M unit :=
  match l with
  | mkFieldList List_ => walkList check_Field List_
  end
with check_Field (field : Field) : M unit :=
  match field with
  | mkField _ Type_ _ => walkOpt check_Expr Type_
  end
with check_Stmt (s : Stmt) : M unit :=
  match s with
  | BadStmt | EmptyStmt => ret tt
  | SBlockStmt block => check_BlockStmt block
  | DeclStmt Decl => check_GenDecl Decl
  | LabeledStmt _ Stmt_ => check_Stmt Stmt_
  | ExprStmt X => check_Expr X
  | SendStmt Chan Value => check_Expr Chan ;; check_Expr Value
  | IncDecStmt X _ => check_Expr X
  | AssignStmt Lhs _ Rhs => walkList check_Expr Lhs ;; walkList check_Expr Rhs
  | GoStmt Call => check_CallExpr Call
  | DeferStmt Defer Call => Reportf Defer deferMessage ;; check_CallExpr Call
  | ReturnStmt Results => walkList check_Expr Results
  | BranchStmt _ _ => ret tt
  | IfStmt Init Cond Body Else =>
    walkOpt check_Stmt Init ;; check_Expr Cond ;; check_BlockStmt Body ;;
    walkOpt check_Stmt Else
  | CaseClause List_ Body => walkList check_Expr List_ ;; walkList check_Stmt Body
  | SwitchStmt Init Tag Body =>
    walkOpt check_Stmt Init ;; walkOpt check_Expr Tag ;; check_BlockStmt Body
  | TypeSwitchStmt Init Assign Body =>
    walkOpt check_Stmt Init ;; check_Stmt Assign ;; check_BlockStmt Body
  | CommClause Comm Body => walkOpt check_Stmt Comm ;; walkList check_Stmt Body
  | SelectStmt Body => check_BlockStmt Body
  | ForStmt Init Cond Post Body =>
    walkOpt check_Stmt Init ;; walkOpt check_Expr Cond ;; walkOpt check_Stmt Post ;;
    check_BlockStmt Body
  | RangeStmt Key Value _ X Body =>
    walkOpt check_Expr Key ;; walkOpt check_Expr Value ;; check_Expr X ;;
    check_BlockStmt Body
  end
with check_BlockStmt (block : BlockStmt) : M unit :=
  match block with
  | mkBlockStmt List_ => walkList check_Stmt List_
  end
with check_GenDecl (d : GenDecl) : M unit :=
  match d with
  | mkGenDecl _ Specs => walkList check_Spec Specs
  end
with check_Spec (s : Spec) : M unit :=
  match s with
  | ImportSpec _ _ => ret tt
  | ValueSpec _ Type_ Values => walkOpt check_Expr Type_ ;; walkList check_Expr Values
  | TypeSpec _ TypeParams Type_ => walkOpt check_FieldList TypeParams ;; check_Expr Type_
  end.

Definition checkDeferInTestFunc (body : option BlockStmt) : M unit :=
  match body with
  | Some block => check_BlockStmt block
  | None => panic
  end.

(** The function literal that [checkDeferInTestFunc] gives to
    [ast.Inspect], as the source has it. *)
Definition checkDeferInTestFunc_func (n : option Node) : M bool :=
  match n with
  | Some (NStmt (DeferStmt Defer _)) =>
    Reportf Defer deferMessage ;; ret true
  | Some (NExpr (EFuncLit node)) =>
    (if hasFuncLitTestingTParam node
     then checkDeferInTestFunc (FuncLit_Body node)
     else ret tt) ;;
    ret false
  | _ => ret true
  end.

(** The function literal that [run] gives to [ast.Inspect]. *)
Definition run_func (n : option Node) : M bool :=
  match n with
  | Some (NDecl (DFuncDecl funcDecl)) =>
    if negb (isTestFunction funcDecl) || negb (hasTestingTParam funcDecl)
    then ret true
    else checkDeferInTestFunc (FuncDecl_Body funcDecl) ;; ret false
  | _ => ret true
  end.

Definition run : M unit :=
  fun pass => walkList (Inspect_File run_func) (Pass_Files pass) pass.

(** ** Reference definitions, written from the specification *)

(** *** The data model: every literal carries a signature and a body

    "Body: ... contains zero or more nested anonymous-function literals,
    each itself carrying a FunctionSignature and a Body."  A tree is
    [complete] when no function literal in it lacks either. *)

Definition optb {A} (c : A -> bool) (o : option A) : bool :=
  match o with
  | Some a => c a
  | None => true
  end.

Fixpoint complete_Expr (e : Expr) : bool :=
  match e with
  | BadExpr | EIdent _ | EBasicLit _ => true
  | EFuncLit lit => complete_FuncLit lit
  | ECallExpr call => complete_CallExpr call
  | EFuncType ft => complete_FuncType ft
  | Ellipsis Elt => optb complete_Expr Elt
  | CompositeLit Type_ Elts => optb complete_Expr Type_ && forallb complete_Expr Elts
  | ParenExpr X => complete_Expr X
  | SelectorExpr X _ => complete_Expr X
  | IndexExpr X Index => complete_Expr X && complete_Expr Index
  | IndexListExpr X Indices => complete_Expr X && forallb complete_Expr Indices
  | SliceExpr X Low High Max _ =>
    complete_Expr X && optb complete_Expr Low && optb complete_Expr High
    && optb complete_Expr Max
  | TypeAssertExpr X Type_ => complete_Expr X && optb complete_Expr Type_
  | StarExpr X => complete_Expr X
  | UnaryExpr _ X => complete_Expr X
  | BinaryExpr X _ Y => complete_Expr X && complete_Expr Y
  | KeyValueExpr Key Value => complete_Expr Key && complete_Expr Value
  | ArrayType Len Elt => optb complete_Expr Len && complete_Expr Elt
  | StructType Fields => complete_FieldList Fields
  | InterfaceType Methods => complete_FieldList Methods
  | MapType Key Value => complete_Expr Key && complete_Expr Value
  | ChanType _ Value => complete_Expr Value
  end
with complete_FuncLit (lit : FuncLit) : bool :=
  match lit with
  | mkFuncLit (Some ft) (Some body) => complete_FuncType ft && complete_BlockStmt body
  | mkFuncLit _ _ => false
  end
with complete_CallExpr (call : CallExpr) : bool :=
  match call with
  | mkCallExpr Fun Args => complete_Expr Fun && forallb complete_Expr Args
  end
with complete_FuncType (ft : FuncType) : bool :=
  match ft with
  | mkFuncType TypeParams Params Results =>
    optb complete_FieldList TypeParams && optb complete_FieldList Params
    && optb complete_FieldList Results
  end
with complete_FieldList (l : FieldList) : bool :=
  match l with
  | mkFieldList List_ => forallb complete_Field List_
  end
with complete_Field (field : Field) : bool :=
  match field with
  | mkField _ Type_ _ => optb complete_Expr Type_
  end
with complete_Stmt (s : Stmt) : bool :=
  match s with
  | BadStmt | EmptyStmt | BranchStmt _ _ => true
  | SBlockStmt block => complete_BlockStmt block
  | DeclStmt Decl => complete_GenDecl Decl
  | LabeledStmt _ Stmt_ => complete_Stmt Stmt_
  | ExprStmt X => complete_Expr X
  | SendStmt Chan Value => complete_Expr Chan && complete_Expr Value
  | IncDecStmt X _ => complete_Expr X
  | AssignStmt Lhs _ Rhs => forallb complete_Expr Lhs && forallb complete_Expr Rhs
  | GoStmt Call => complete_CallExpr Call
  | DeferStmt _ Call => complete_CallExpr Call
  | ReturnStmt Results => forallb complete_Expr Results
  | IfStmt Init Cond Body Else =>
    optb complete_Stmt Init && complete_Expr Cond && complete_BlockStmt Body
    && optb complete_Stmt Else
  | CaseClause List_ Body => forallb complete_Expr List_ && forallb complete_Stmt Body
  | SwitchStmt Init Tag Body =>
    optb complete_Stmt Init && optb complete_Expr Tag && complete_BlockStmt Body
  | TypeSwitchStmt Init Assign Body =>
    optb complete_Stmt Init && complete_Stmt Assign && complete_BlockStmt Body
  | CommClause Comm Body => optb complete_Stmt Comm && forallb complete_Stmt Body
  | SelectStmt Body => complete_BlockStmt Body
  | ForStmt Init Cond Post Body =>
    optb complete_Stmt Init && optb complete_Expr Cond && optb complete_Stmt Post
    && complete_BlockStmt Body
  | RangeStmt Key Value _ X Body =>
    optb complete_Expr Key && optb complete_Expr Value && complete_Expr X
    && complete_BlockStmt Body
  end
with complete_BlockStmt (block : BlockStmt) : bool :=
  match block with
  | mkBlockStmt List_ => forallb complete_Stmt List_
  end
with complete_GenDecl (d : GenDecl) : bool :=
  match d with
  | mkGenDecl _ Specs => forallb complete_Spec Specs
  end
with complete_Spec (s : Spec) : bool :=
  match s with
  | ImportSpec _ _ => true
  | ValueSpec _ Type_ Values => optb complete_Expr Type_ && forallb complete_Expr Values
  | TypeSpec _ TypeParams Type_ => optb complete_FieldList TypeParams && complete_Expr Type_
  end.

Definition complete_FuncDecl (d : FuncDecl) : bool :=
  optb complete_FieldList (FuncDecl_Recv d) && complete_FuncType (FuncDecl_Type d)
  && optb complete_BlockStmt (FuncDecl_Body d).

Definition complete_Decl (d : Decl) : bool :=
  match d with
  | BadDecl => true
  | DGenDecl g => complete_GenDecl g
  | DFuncDecl fd => complete_FuncDecl fd
  end.

Definition complete_File (file : File) : bool :=
  forallb complete_Decl (File_Decls file).

(** *** Test contexts (sections 3, 4.1 and 4.2) *)

(** TestContextParameterShape: a pointer to one of the two test-driver
    types, [testing.T] and [testing.B]. *)
Definition TestContextParameterShape (ty : Expr) : Prop :=
  exists pkg sel,
    ty = StarExpr (SelectorExpr (EIdent pkg) sel)
    /\ Ident_Name pkg = "testing"
    /\ (Ident_Name sel = "T" \/ Ident_Name sel = "B").

(** "its signature contains at least one parameter satisfying
    TestContextParameterShape", for a parameter list that may be absent. *)
Definition SignatureQualifies (params : option FieldList) : Prop :=
  exists l field ty,
    params = Some l /\ In field (FieldList_List l)
    /\ Field_Type field = Some ty /\ TestContextParameterShape ty.

(** "the name must begin with one of two recognized literal prefixes ...
    the rule requires at least one character after the prefix". *)
Definition NameQualifies (name : string) : Prop :=
  exists c rest,
    name = "Test" ++ String c rest \/ name = "Benchmark" ++ String c rest.

(** A name that starts with a recognized prefix, with or without suffix. *)
Definition HasRecognizedPrefix (name : string) : Prop :=
  exists rest, name = "Test" ++ rest \/ name = "Benchmark" ++ rest.

Definition TestEntryPoint (d : FuncDecl) : Prop :=
  NameQualifies (Ident_Name (FuncDecl_Name d))
  /\ SignatureQualifies (FuncType_Params (FuncDecl_Type d)).

Definition NestedTestContext (lit : FuncLit) : Prop :=
  exists ft, FuncLit_Type lit = Some ft /\ SignatureQualifies (FuncType_Params ft).

(** Decision procedures for the signature rule, used by the reference
    traversal below. *)
Definition testContextParameterShapeb (ty : Expr) : bool :=
  match ty with
  | StarExpr (SelectorExpr (EIdent pkg) sel) =>
    (Ident_Name pkg =? "testing")
    && ((Ident_Name sel =? "T") || (Ident_Name sel =? "B"))
  | _ => false
  end.

Definition fieldQualifiesb (field : Field) : bool :=
  match Field_Type field with
  | Some ty => testContextParameterShapeb ty
  | None => false
  end.

Definition signatureQualifiesb (params : option FieldList) : bool :=
  match params with
  | Some l => existsb fieldQualifiesb (FieldList_List l)
  | None => false
  end.

Definition nestedTestContextb (lit : FuncLit) : bool :=
  match FuncLit_Type lit with
  | Some ft => signatureQualifiesb (FuncType_Params ft)
  | None => false
  end.

(** *** Deferred statements reachable in a test context (sections 4.3, 8)

    The positions, in source order, of the deferred-execution statements
    of a tree that are reachable without passing through a function
    literal that is not a nested test context.  Every other construct is
    transparent; a qualifying literal contributes what is reachable in its
    body (nothing when the body is absent). *)

Definition optl {A B} (r : A -> list B) (o : option A) : list B :=
  match o with
  | Some a => r a
  | None => []
  end.

Fixpoint reachableDefers_Expr (e : Expr) : list Pos :=
  match e with
  | BadExpr | EIdent _ | EBasicLit _ => []
  | EFuncLit lit => reachableDefers_FuncLit lit
  | ECallExpr call => reachableDefers_CallExpr call
  | EFuncType ft => reachableDefers_FuncType ft
  | Ellipsis Elt => optl reachableDefers_Expr Elt
  | CompositeLit Type_ Elts =>
    optl reachableDefers_Expr Type_ ++ flat_map reachableDefers_Expr Elts
  | ParenExpr X => reachableDefers_Expr X
  | SelectorExpr X _ => reachableDefers_Expr X
  | IndexExpr X Index => reachableDefers_Expr X ++ reachableDefers_Expr Index
  | IndexListExpr X Indices =>
    reachableDefers_Expr X ++ flat_map reachableDefers_Expr Indices
  | SliceExpr X Low High Max _ =>
    reachableDefers_Expr X ++ optl reachableDefers_Expr Low
    ++ optl reachableDefers_Expr High ++ optl reachableDefers_Expr Max
  | TypeAssertExpr X Type_ => reachableDefers_Expr X ++ optl reachableDefers_Expr Type_
  | StarExpr X => reachableDefers_Expr X
  | UnaryExpr _ X => reachableDefers_Expr X
  | BinaryExpr X _ Y => reachableDefers_Expr X ++ reachableDefers_Expr Y
  | KeyValueExpr Key Value => reachableDefers_Expr Key ++ reachableDefers_Expr Value
  | ArrayType Len Elt => optl reachableDefers_Expr Len ++ reachableDefers_Expr Elt
  | StructType Fields => reachableDefers_FieldList Fields
  | InterfaceType Methods => reachableDefers_FieldList Methods
  | MapType Key Value => reachableDefers_Expr Key ++ reachableDefers_Expr Value
  | ChanType _ Value => reachableDefers_Expr Value
  end
with reachableDefers_FuncLit (lit : FuncLit) : list Pos :=
  if nestedTestContextb lit then
    match lit with
    | mkFuncLit _ Body => optl reachableDefers_BlockStmt Body
    end
  else []
with reachableDefers_CallExpr (call : CallExpr) : list Pos :=
  match call with
  | mkCallExpr Fun Args => reachableDefers_Expr Fun ++ flat_map reachableDefers_Expr Args
  end
with reachableDefers_FuncType (ft : FuncType) : list Pos :=
  match ft with
  | mkFuncType TypeParams Params Results =>
    optl reachableDefers_FieldList TypeParams ++ optl reachableDefers_FieldList Params
    ++ optl reachableDefers_FieldList Results
  end
with reachableDefers_FieldList (l : FieldList) : list Pos :=
  match l with
  | mkFieldList List_ => flat_map reachableDefers_Field List_
  end
with reachableDefers_Field (field : Field) : list Pos :=
  match field with
  | mkField _ Type_ _ => optl reachableDefers_Expr Type_
  end
with reachableDefers_Stmt (s : Stmt) : list Pos :=
  match s with
  | BadStmt | EmptyStmt | BranchStmt _ _ => []
  | DeferStmt Defer Call => Defer :: reachableDefers_CallExpr Call
  | SBlockStmt block => reachableDefers_BlockStmt block
  | DeclStmt Decl => reachableDefers_GenDecl Decl
  | LabeledStmt _ Stmt_ => reachableDefers_Stmt Stmt_
  | ExprStmt X => reachableDefers_Expr X
  | SendStmt Chan Value => reachableDefers_Expr Chan ++ reachableDefers_Expr Value
  | IncDecStmt X _ => reachableDefers_Expr X
  | AssignStmt Lhs _ Rhs =>
    flat_map reachableDefers_Expr Lhs ++ flat_map reachableDefers_Expr Rhs
  | GoStmt Call => reachableDefers_CallExpr Call
  | ReturnStmt Results => flat_map reachableDefers_Expr Results
  | IfStmt Init Cond Body Else =>
    optl reachableDefers_Stmt Init ++ reachableDefers_Expr Cond
    ++ reachableDefers_BlockStmt Body ++ optl reachableDefers_Stmt Else
  | CaseClause List_ Body =>
    flat_map reachableDefers_Expr List_ ++ flat_map reachableDefers_Stmt Body
  | SwitchStmt Init Tag Body =>
    optl reachableDefers_Stmt Init ++ optl reachableDefers_Expr Tag
    ++ reachableDefers_BlockStmt Body
  | TypeSwitchStmt Init Assign Body =>
    optl reachableDefers_Stmt Init ++ reachableDefers_Stmt Assign
    ++ reachableDefers_BlockStmt Body
  | CommClause Comm Body =>
    optl reachableDefers_Stmt Comm ++ flat_map reachableDefers_Stmt Body
  | SelectStmt Body => reachableDefers_BlockStmt Body
  | ForStmt Init Cond Post Body =>
    optl reachableDefers_Stmt Init ++ optl reachableDefers_Expr Cond
    ++ optl reachableDefers_Stmt Post ++ reachableDefers_BlockStmt Body
  | RangeStmt Key Value _ X Body =>
    optl reachableDefers_Expr Key ++ optl reachableDefers_Expr Value
    ++ reachableDefers_Expr X ++ reachableDefers_BlockStmt Body
  end
with reachableDefers_BlockStmt (block : BlockStmt) : list Pos :=
  match block with
  | mkBlockStmt List_ => flat_map reachableDefers_Stmt List_
  end
with reachableDefers_GenDecl (d : GenDecl) : list Pos :=
  match d with
  | mkGenDecl _ Specs => flat_map reachableDefers_Spec Specs
  end
with reachableDefers_Spec (s : Spec) : list Pos :=
  match s with
  | ImportSpec _ _ => []
  | ValueSpec _ Type_ Values =>
    optl reachableDefers_Expr Type_ ++ flat_map reachableDefers_Expr Values
  | TypeSpec _ TypeParams Type_ =>
    optl reachableDefers_FieldList TypeParams ++ reachableDefers_Expr Type_
  end.

(** The findings for a list of positions: one per position, each with
    the fixed message, appended to what the pass already holds. *)
Definition findings (ps : list Pos) : list Diagnostic :=
  map (fun p => mkDiagnostic p deferMessage) ps.

Definition emit (ps : list Pos) : M unit :=
  fun pass =>
    Ok (tt, mkPass (Pass_Files pass) (Pass_Diagnostics pass ++ findings ps)).

(** ** Computations compared and bounded

    Two computations agree when they agree on every pass. *)
Definition eqM {A} (m1 m2 : M A) : Prop := forall pass, m1 pass = m2 pass.

(** Succeed without effect, or fail. *)
Definition guard (b : bool) : M unit := if b then ret tt else panic.

(** [pass'] extends [pass] when it holds the same files and the same
    diagnostics followed by findings with the fixed message; a computation
    adds only findings when every pass it returns extends the one it got. *)
Definition Extends (pass pass' : Pass) : Prop :=
  exists ps,
    pass' = mkPass (Pass_Files pass) (Pass_Diagnostics pass ++ findings ps).

Definition OnlyFindings {A} (m : M A) : Prop :=
  forall pass a pass', m pass = Ok (a, pass') -> Extends pass pass'.

(** A parameter list in which every type is either a bare selector
    ([testing.T], not a pointer) or a pointer to a selector on a package
    name other than "testing" (a renamed import). *)
Definition OnlyLookalikes (params : list Field) : Prop :=
  forall field ty,
    In field params -> Field_Type field = Some ty ->
    (exists pkg sel, ty = SelectorExpr (EIdent pkg) sel)
    \/ (exists pkg sel,
          ty = StarExpr (SelectorExpr (EIdent pkg) sel)
          /\ Ident_Name pkg <> "testing").

(** *** Erasing what the walker must not see

    [eraseSkipped] removes the body of every function literal that
    [hasFuncLitTestingTParam] rejects, wherever the walker could meet it:
    at any depth of the statements and expressions, and inside the bodies of
    the literals it accepts.  Two trees with the same erasure differ only
    inside rejected literals. *)

Fixpoint eraseSkipped_Expr (e : Expr) : Expr :=
  match e with
  | BadExpr | EIdent _ | EBasicLit _ => e
  | EFuncLit lit => EFuncLit (eraseSkipped_FuncLit lit)
  | ECallExpr call => ECallExpr (eraseSkipped_CallExpr call)
  | EFuncType ft => EFuncType (eraseSkipped_FuncType ft)
  | Ellipsis Elt => Ellipsis (option_map eraseSkipped_Expr Elt)
  | CompositeLit Type_ Elts =>
    CompositeLit (option_map eraseSkipped_Expr Type_) (map eraseSkipped_Expr Elts)
  | ParenExpr X => ParenExpr (eraseSkipped_Expr X)
  | SelectorExpr X Sel => SelectorExpr (eraseSkipped_Expr X) Sel
  | IndexExpr X Index => IndexExpr (eraseSkipped_Expr X) (eraseSkipped_Expr Index)
  | IndexListExpr X Indices =>
    IndexListExpr (eraseSkipped_Expr X) (map eraseSkipped_Expr Indices)
  | SliceExpr X Low High Max Slice3 =>
    SliceExpr (eraseSkipped_Expr X) (option_map eraseSkipped_Expr Low)
              (option_map eraseSkipped_Expr High) (option_map eraseSkipped_Expr Max)
              Slice3
  | TypeAssertExpr X Type_ =>
    TypeAssertExpr (eraseSkipped_Expr X) (option_map eraseSkipped_Expr Type_)
  | StarExpr X => StarExpr (eraseSkipped_Expr X)
  | UnaryExpr Op X => UnaryExpr Op (eraseSkipped_Expr X)
  | BinaryExpr X Op Y => BinaryExpr (eraseSkipped_Expr X) Op (eraseSkipped_Expr Y)
  | KeyValueExpr Key Value =>
    KeyValueExpr (eraseSkipped_Expr Key) (eraseSkipped_Expr Value)
  | ArrayType Len Elt =>
    ArrayType (option_map eraseSkipped_Expr Len) (eraseSkipped_Expr Elt)
  | StructType Fields => StructType (eraseSkipped_FieldList Fields)
  | InterfaceType Methods => InterfaceType (eraseSkipped_FieldList Methods)
  | MapType Key Value => MapType (eraseSkipped_Expr Key) (eraseSkipped_Expr Value)
  | ChanType Dir Value => ChanType Dir (eraseSkipped_Expr Value)
  end
with eraseSkipped_FuncLit (lit : FuncLit) : FuncLit :=
  match lit with
  | mkFuncLit Type_ Body =>
    if hasFuncLitTestingTParam lit
    then mkFuncLit Type_ (option_map eraseSkipped_BlockStmt Body)
    else mkFuncLit Type_ None
  end
with eraseSkipped_CallExpr (call : CallExpr) : CallExpr :=
  match call with
  | mkCallExpr Fun Args => mkCallExpr (eraseSkipped_Expr Fun) (map eraseSkipped_Expr Args)
  end
with eraseSkipped_FuncType (ft : FuncType) : FuncType :=
  match ft with
  | mkFuncType TypeParams Params Results =>
    mkFuncType (option_map eraseSkipped_FieldList TypeParams)
               (option_map eraseSkipped_FieldList Params)
               (option_map eraseSkipped_FieldList Results)
  end
with eraseSkipped_FieldList (l : FieldList) : FieldList :=
  match l with
  | mkFieldList List_ => mkFieldList (map eraseSkipped_Field List_)
  end
with eraseSkipped_Field (field : Field) : Field :=
  match field with
  | mkField Names Type_ Tag => mkField Names (option_map eraseSkipped_Expr Type_) Tag
  end
with eraseSkipped_Stmt (s : Stmt) : Stmt :=
  match s with
  | BadStmt | EmptyStmt | BranchStmt _ _ => s
  | SBlockStmt block => SBlockStmt (eraseSkipped_BlockStmt block)
  | DeclStmt Decl => DeclStmt (eraseSkipped_GenDecl Decl)
  | LabeledStmt Label Stmt_ => LabeledStmt Label (eraseSkipped_Stmt Stmt_)
  | ExprStmt X => ExprStmt (eraseSkipped_Expr X)
  | SendStmt Chan Value => SendStmt (eraseSkipped_Expr Chan) (eraseSkipped_Expr Value)
  | IncDecStmt X Tok => IncDecStmt (eraseSkipped_Expr X) Tok
  | AssignStmt Lhs Tok Rhs =>
    AssignStmt (map eraseSkipped_Expr Lhs) Tok (map eraseSkipped_Expr Rhs)
  | GoStmt Call => GoStmt (eraseSkipped_CallExpr Call)
  | DeferStmt Defer Call => DeferStmt Defer (eraseSkipped_CallExpr Call)
  | ReturnStmt Results => ReturnStmt (map eraseSkipped_Expr Results)
  | IfStmt Init Cond Body Else =>
    IfStmt (option_map eraseSkipped_Stmt Init) (eraseSkipped_Expr Cond)
           (eraseSkipped_BlockStmt Body) (option_map eraseSkipped_Stmt Else)
  | CaseClause List_ Body =>
    CaseClause (map eraseSkipped_Expr List_) (map eraseSkipped_Stmt Body)
  | SwitchStmt Init Tag Body =>
    SwitchStmt (option_map eraseSkipped_Stmt Init) (option_map eraseSkipped_Expr Tag)
               (eraseSkipped_BlockStmt Body)
  | TypeSwitchStmt Init Assign Body =>
    TypeSwitchStmt (option_map eraseSkipped_Stmt Init) (eraseSkipped_Stmt Assign)
                   (eraseSkipped_BlockStmt Body)
  | CommClause Comm Body =>
    CommClause (option_map eraseSkipped_Stmt Comm) (map eraseSkipped_Stmt Body)
  | SelectStmt Body => SelectStmt (eraseSkipped_BlockStmt Body)
  | ForStmt Init Cond Post Body =>
    ForStmt (option_map eraseSkipped_Stmt Init) (option_map eraseSkipped_Expr Cond)
            (option_map eraseSkipped_Stmt Post) (eraseSkipped_BlockStmt Body)
  | RangeStmt Key Value Tok X Body =>
    RangeStmt (option_map eraseSkipped_Expr Key) (option_map eraseSkipped_Expr Value)
              Tok (eraseSkipped_Expr X) (eraseSkipped_BlockStmt Body)
  end
with eraseSkipped_BlockStmt (block : BlockStmt) : BlockStmt :=
  match block with
  | mkBlockStmt List_ => mkBlockStmt (map eraseSkipped_Stmt List_)
  end
with eraseSkipped_GenDecl (d : GenDecl) : GenDecl :=
  match d with
  | mkGenDecl Tok Specs => mkGenDecl Tok (map eraseSkipped_Spec Specs)
  end
with eraseSkipped_Spec (s : Spec) : Spec :=
  match s with
  | ImportSpec _ _ => s
  | ValueSpec Names Type_ Values =>
    ValueSpec Names (option_map eraseSkipped_Expr Type_) (map eraseSkipped_Expr Values)
  | TypeSpec Name TypeParams Type_ =>
    TypeSpec Name (option_map eraseSkipped_FieldList TypeParams) (eraseSkipped_Expr Type_)
  end.

(** ** Reference definitions for the whole run

    *** Where the walker needs a body

    A tree is [bodied] when every function literal that is a nested test
    context and is reachable in the sense of [reachableDefers] has a body.
    Literals that are not test contexts are not looked into. *)

Fixpoint bodied_Expr (e : Expr) : bool :=
  match e with
  | BadExpr | EIdent _ | EBasicLit _ => true
  | EFuncLit lit => bodied_FuncLit lit
  | ECallExpr call => bodied_CallExpr call
  | EFuncType ft => bodied_FuncType ft
  | Ellipsis Elt => optb bodied_Expr Elt
  | CompositeLit Type_ Elts => optb bodied_Expr Type_ && forallb bodied_Expr Elts
  | ParenExpr X => bodied_Expr X
  | SelectorExpr X _ => bodied_Expr X
  | IndexExpr X Index => bodied_Expr X && bodied_Expr Index
  | IndexListExpr X Indices => bodied_Expr X && forallb bodied_Expr Indices
  | SliceExpr X Low High Max _ =>
    bodied_Expr X && optb bodied_Expr Low && optb bodied_Expr High
    && optb bodied_Expr Max
  | TypeAssertExpr X Type_ => bodied_Expr X && optb bodied_Expr Type_
  | StarExpr X => bodied_Expr X
  | UnaryExpr _ X => bodied_Expr X
  | BinaryExpr X _ Y => bodied_Expr X && bodied_Expr Y
  | KeyValueExpr Key Value => bodied_Expr Key && bodied_Expr Value
  | ArrayType Len Elt => optb bodied_Expr Len && bodied_Expr Elt
  | StructType Fields => bodied_FieldList Fields
  | InterfaceType Methods => bodied_FieldList Methods
  | MapType Key Value => bodied_Expr Key && bodied_Expr Value
  | ChanType _ Value => bodied_Expr Value
  end
with bodied_FuncLit (lit : FuncLit) : bool :=
  if nestedTestContextb lit then
    match lit with
    | mkFuncLit _ (Some body) => bodied_BlockStmt body
    | mkFuncLit _ None => false
    end
  else true
with bodied_CallExpr (call : CallExpr) : bool :=
  match call with
  | mkCallExpr Fun Args => bodied_Expr Fun && forallb bodied_Expr Args
  end
with bodied_FuncType (ft : FuncType) : bool :=
  match ft with
  | mkFuncType TypeParams Params Results =>
    optb bodied_FieldList TypeParams && optb bodied_FieldList Params
    && optb bodied_FieldList Results
  end
with bodied_FieldList (l : FieldList) : bool :=
  match l with
  | mkFieldList List_ => forallb bodied_Field List_
  end
with bodied_Field (field : Field) : bool :=
  match field with
  | mkField _ Type_ _ => optb bodied_Expr Type_
  end
with bodied_Stmt (s : Stmt) : bool :=
  match s with
  | BadStmt | EmptyStmt | BranchStmt _ _ => true
  | SBlockStmt block => bodied_BlockStmt block
  | DeclStmt Decl => bodied_GenDecl Decl
  | LabeledStmt _ Stmt_ => bodied_Stmt Stmt_
  | ExprStmt X => bodied_Expr X
  | SendStmt Chan Value => bodied_Expr Chan && bodied_Expr Value
  | IncDecStmt X _ => bodied_Expr X
  | AssignStmt Lhs _ Rhs => forallb bodied_Expr Lhs && forallb bodied_Expr Rhs
  | GoStmt Call => bodied_CallExpr Call
  | DeferStmt _ Call => bodied_CallExpr Call
  | ReturnStmt Results => forallb bodied_Expr Results
  | IfStmt Init Cond Body Else =>
    optb bodied_Stmt Init && bodied_Expr Cond && bodied_BlockStmt Body
    && optb bodied_Stmt Else
  | CaseClause List_ Body => forallb bodied_Expr List_ && forallb bodied_Stmt Body
  | SwitchStmt Init Tag Body =>
    optb bodied_Stmt Init && optb bodied_Expr Tag && bodied_BlockStmt Body
  | TypeSwitchStmt Init Assign Body =>
    optb bodied_Stmt Init && bodied_Stmt Assign && bodied_BlockStmt Body
  | CommClause Comm Body => optb bodied_Stmt Comm && forallb bodied_Stmt Body
  | SelectStmt Body => bodied_BlockStmt Body
  | ForStmt Init Cond Post Body =>
    optb bodied_Stmt Init && optb bodied_Expr Cond && optb bodied_Stmt Post
    && bodied_BlockStmt Body
  | RangeStmt Key Value _ X Body =>
    optb bodied_Expr Key && optb bodied_Expr Value && bodied_Expr X
    && bodied_BlockStmt Body
  end
with bodied_BlockStmt (block : BlockStmt) : bool :=
  match block with
  | mkBlockStmt List_ => forallb bodied_Stmt List_
  end
with bodied_GenDecl (d : GenDecl) : bool :=
  match d with
  | mkGenDecl _ Specs => forallb bodied_Spec Specs
  end
with bodied_Spec (s : Spec) : bool :=
  match s with
  | ImportSpec _ _ => true
  | ValueSpec _ Type_ Values => optb bodied_Expr Type_ && forallb bodied_Expr Values
  | TypeSpec _ TypeParams Type_ => optb bodied_FieldList TypeParams && bodied_Expr Type_
  end.

(** Succeed with these findings, or fail. *)
Definition emitIf (ok : bool) (ps : list Pos) : M unit :=
  if ok then emit ps else panic.

(** *** Every deferred statement of a tree

    The positions, in source order, of all deferred-execution statements
    of a tree, those inside function literals of any kind (and inside their
    signatures) included. *)

Fixpoint allDefers_Expr (e : Expr) : list Pos :=
  match e with
  | BadExpr | EIdent _ | EBasicLit _ => []
  | EFuncLit lit => allDefers_FuncLit lit
  | ECallExpr call => allDefers_CallExpr call
  | EFuncType ft => allDefers_FuncType ft
  | Ellipsis Elt => optl allDefers_Expr Elt
  | CompositeLit Type_ Elts =>
    optl allDefers_Expr Type_ ++ flat_map allDefers_Expr Elts
  | ParenExpr X => allDefers_Expr X
  | SelectorExpr X _ => allDefers_Expr X
  | IndexExpr X Index => allDefers_Expr X ++ allDefers_Expr Index
  | IndexListExpr X Indices =>
    allDefers_Expr X ++ flat_map allDefers_Expr Indices
  | SliceExpr X Low High Max _ =>
    allDefers_Expr X ++ optl allDefers_Expr Low
    ++ optl allDefers_Expr High ++ optl allDefers_Expr Max
  | TypeAssertExpr X Type_ => allDefers_Expr X ++ optl allDefers_Expr Type_
  | StarExpr X => allDefers_Expr X
  | UnaryExpr _ X => allDefers_Expr X
  | BinaryExpr X _ Y => allDefers_Expr X ++ allDefers_Expr Y
  | KeyValueExpr Key Value => allDefers_Expr Key ++ allDefers_Expr Value
  | ArrayType Len Elt => optl allDefers_Expr Len ++ allDefers_Expr Elt
  | StructType Fields => allDefers_FieldList Fields
  | InterfaceType Methods => allDefers_FieldList Methods
  | MapType Key Value => allDefers_Expr Key ++ allDefers_Expr Value
  | ChanType _ Value => allDefers_Expr Value
  end
with allDefers_FuncLit (lit : FuncLit) : list Pos :=
  match lit with
  | mkFuncLit Type_ Body =>
    optl allDefers_FuncType Type_ ++ optl allDefers_BlockStmt Body
  end
with allDefers_CallExpr (call : CallExpr) : list Pos :=
  match call with
  | mkCallExpr Fun Args => allDefers_Expr Fun ++ flat_map allDefers_Expr Args
  end
with allDefers_FuncType (ft : FuncType) : list Pos :=
  match ft with
  | mkFuncType TypeParams Params Results =>
    optl allDefers_FieldList TypeParams ++ optl allDefers_FieldList Params
    ++ optl allDefers_FieldList Results
  end
with allDefers_FieldList (l : FieldList) : list Pos :=
  match l with
  | mkFieldList List_ => flat_map allDefers_Field List_
  end
with allDefers_Field (field : Field) : list Pos :=
  match field with
  | mkField _ Type_ _ => optl allDefers_Expr Type_
  end
with allDefers_Stmt (s : Stmt) : list Pos :=
  match s with
  | BadStmt | EmptyStmt | BranchStmt _ _ => []
  | DeferStmt Defer Call => Defer :: allDefers_CallExpr Call
  | SBlockStmt block => allDefers_BlockStmt block
  | DeclStmt Decl => allDefers_GenDecl Decl
  | LabeledStmt _ Stmt_ => allDefers_Stmt Stmt_
  | ExprStmt X => allDefers_Expr X
  | SendStmt Chan Value => allDefers_Expr Chan ++ allDefers_Expr Value
  | IncDecStmt X _ => allDefers_Expr X
  | AssignStmt Lhs _ Rhs =>
    flat_map allDefers_Expr Lhs ++ flat_map allDefers_Expr Rhs
  | GoStmt Call => allDefers_CallExpr Call
  | ReturnStmt Results => flat_map allDefers_Expr Results
  | IfStmt Init Cond Body Else =>
    optl allDefers_Stmt Init ++ allDefers_Expr Cond
    ++ allDefers_BlockStmt Body ++ optl allDefers_Stmt Else
  | CaseClause List_ Body =>
    flat_map allDefers_Expr List_ ++ flat_map allDefers_Stmt Body
  | SwitchStmt Init Tag Body =>
    optl allDefers_Stmt Init ++ optl allDefers_Expr Tag
    ++ allDefers_BlockStmt Body
  | TypeSwitchStmt Init Assign Body =>
    optl allDefers_Stmt Init ++ allDefers_Stmt Assign
    ++ allDefers_BlockStmt Body
  | CommClause Comm Body =>
    optl allDefers_Stmt Comm ++ flat_map allDefers_Stmt Body
  | SelectStmt Body => allDefers_BlockStmt Body
  | ForStmt Init Cond Post Body =>
    optl allDefers_Stmt Init ++ optl allDefers_Expr Cond
    ++ optl allDefers_Stmt Post ++ allDefers_BlockStmt Body
  | RangeStmt Key Value _ X Body =>
    optl allDefers_Expr Key ++ optl allDefers_Expr Value
    ++ allDefers_Expr X ++ allDefers_BlockStmt Body
  end
with allDefers_BlockStmt (block : BlockStmt) : list Pos :=
  match block with
  | mkBlockStmt List_ => flat_map allDefers_Stmt List_
  end
with allDefers_GenDecl (d : GenDecl) : list Pos :=
  match d with
  | mkGenDecl _ Specs => flat_map allDefers_Spec Specs
  end
with allDefers_Spec (s : Spec) : list Pos :=
  match s with
  | ImportSpec _ _ => []
  | ValueSpec _ Type_ Values =>
    optl allDefers_Expr Type_ ++ flat_map allDefers_Expr Values
  | TypeSpec _ TypeParams Type_ =>
    optl allDefers_FieldList TypeParams ++ allDefers_Expr Type_
  end.

Definition allDefers_FuncDecl (d : FuncDecl) : list Pos :=
  optl allDefers_FieldList (FuncDecl_Recv d) ++ allDefers_FuncType (FuncDecl_Type d)
  ++ optl allDefers_BlockStmt (FuncDecl_Body d).

Definition allDefers_Decl (d : Decl) : list Pos :=
  match d with
  | BadDecl => []
  | DGenDecl g => allDefers_GenDecl g
  | DFuncDecl fd => allDefers_FuncDecl fd
  end.

Definition allDefers_File (file : File) : list Pos :=
  flat_map allDefers_Decl (File_Decls file).

(** [ps] is [qs] with some elements left out. *)
Inductive Subseq {A} : list A -> list A -> Prop :=
  | Subseq_nil : Subseq [] []
  | Subseq_skip (q : A) (ps qs : list A) : Subseq ps qs -> Subseq ps (q :: qs)
  | Subseq_keep (q : A) (ps qs : list A) : Subseq ps qs -> Subseq (q :: ps) (q :: qs).

(** *** What a run does with a declaration, a file, a package

    [run] takes a function declaration for a test when both of its tests
    pass.  It then needs the body, and bodies for the test contexts below
    it; on any other declaration the traversal goes through the whole
    declaration and needs it complete.  Only declarations taken for tests
    contribute findings. *)

Definition entryPointb (d : FuncDecl) : bool :=
  isTestFunction d && hasTestingTParam d.

Definition declOk (d : Decl) : bool :=
  match d with
  | BadDecl => true
  | DGenDecl g => complete_GenDecl g
  | DFuncDecl fd =>
    if entryPointb fd
    then match FuncDecl_Body fd with
         | Some body => bodied_BlockStmt body
         | None => false
         end
    else complete_FuncDecl fd
  end.

Definition declDefers (d : Decl) : list Pos :=
  match d with
  | DFuncDecl fd =>
    if entryPointb fd then optl reachableDefers_BlockStmt (FuncDecl_Body fd) else []
  | _ => []
  end.

Definition fileOk (file : File) : bool := forallb declOk (File_Decls file).

Definition fileDefers (file : File) : list Pos :=
  flat_map declDefers (File_Decls file).

(** Every literal has a signature and a body, and so has every
    declaration that [run] takes for a test. *)
Definition runnableDecl (d : Decl) : bool :=
  complete_Decl d
  && match d with
     | DFuncDecl fd =>
       if entryPointb fd
       then match FuncDecl_Body fd with Some _ => true | None => false end
       else true
     | _ => true
     end.

Definition runnableFile (file : File) : bool := forallb runnableDecl (File_Decls file).

(** ** Fixtures: the shapes of [testdata/src/a/a.go] *)

Module Fixtures.
Local Open Scope Z_scope.

Definition ident (name : string) : Expr := EIdent (mkIdent name).

(** [pkg.name] *)
Definition qualified (pkg name : string) : Expr :=
  SelectorExpr (ident pkg) (mkIdent name).

(** [*testing.T] and [*testing.B] *)
Definition ptrTestingT : Expr := StarExpr (qualified "testing" "T").
Definition ptrTestingB : Expr := StarExpr (qualified "testing" "B").

Definition param (name : string) (ty : Expr) : Field :=
  mkField [mkIdent name] (Some ty) None.

Definition signature (params : list Field) : FuncType :=
  mkFuncType None (Some (mkFieldList params)) None.

(** [fn()] *)
Definition call0 (fn : string) : CallExpr := mkCallExpr (ident fn) [].

(** [defer cleanup()] at position [p] *)
Definition deferCleanup (p : Pos) : Stmt := DeferStmt p (call0 "cleanup").

(** [func(params) { body }] *)
Definition funcLit (params : list Field) (body : list Stmt) : Expr :=
  EFuncLit (mkFuncLit (Some (signature params)) (Some (mkBlockStmt body))).

(** [func name(params) { body }] *)
Definition funcDecl (name : string) (params : list Field) (body : list Stmt) : Decl :=
  DFuncDecl (mkFuncDecl None (mkIdent name) (signature params)
                        (Some (mkBlockStmt body))).

(** [func name(params)], a declaration without body *)
Definition funcDeclNoBody (name : string) (params : list Field) : Decl :=
  DFuncDecl (mkFuncDecl None (mkIdent name) (signature params) None).

(** [recv.method(args)] as a statement *)
Definition callStmt (recv method : string) (args : list Expr) : Stmt :=
  ExprStmt (ECallExpr (mkCallExpr (qualified recv method) args)).

Definition package (decls : list Decl) : Pass :=
  mkPass [mkFile (mkIdent "a") decls] [].

Definition reported (decls : list Decl) (ps : list Pos) : Result (unit * Pass) :=
  Ok (tt, mkPass [mkFile (mkIdent "a") decls] (findings ps)).

Definition someCondition : Expr := ECallExpr (call0 "someCondition").

End Fixtures.

(** * Proofs *)

(** ** Reasoning about computations in [M] *)

Lemma eqM_refl {A} (m : M A) : eqM m m.
Proof. intros pass; reflexivity. Qed.

Lemma eqM_trans {A} (m1 m2 m3 : M A) : eqM m1 m2 -> eqM m2 m3 -> eqM m1 m3.
Proof. intros H12 H23 pass. rewrite H12. apply H23. Qed.

Lemma bind_eqM {A B} (m1 m2 : M A) (k1 k2 : A -> M B) :
  eqM m1 m2 -> (forall a, eqM (k1 a) (k2 a)) -> eqM (bind m1 k1) (bind m2 k2).
Proof.
  intros Hm Hk pass. unfold bind. rewrite Hm.
  destruct (m2 pass) as [[a pass']|]; [apply Hk | reflexivity].
Qed.

Lemma bind_ret_tt (m : M unit) : eqM (m ;; ret tt) m.
Proof.
  intros pass. unfold bind, ret.
  destruct (m pass) as [[[] pass']|]; reflexivity.
Qed.

Lemma walkList_eqM {A} (w1 w2 : A -> M unit) (l : list A) :
  list_all (fun a => eqM (w1 a) (w2 a)) l -> eqM (walkList w1 l) (walkList w2 l).
Proof.
  induction 1 as [|a Ha l _ IH]; simpl.
  - apply eqM_refl.
  - apply bind_eqM; [exact Ha | intros _; exact IH].
Qed.

Lemma walkOpt_eqM {A} (w1 w2 : A -> M unit) (o : option A) :
  option_all (fun a => eqM (w1 a) (w2 a)) o -> eqM (walkOpt w1 o) (walkOpt w2 o).
Proof.
  destruct 1 as [a Ha|]; simpl; [exact Ha | apply eqM_refl].
Qed.

(** A leaf that the inspecting function lets through leaves no trace. *)
Lemma walkList_inert {A} (w : A -> M unit) (l : list A) :
  (forall a, eqM (w a) (ret tt)) -> eqM (walkList w l) (ret tt).
Proof.
  intros Hw. induction l as [|a l IH]; simpl.
  - apply eqM_refl.
  - intros pass. unfold bind. rewrite Hw. simpl. apply IH.
Qed.

Lemma walkOpt_inert {A} (w : A -> M unit) (o : option A) :
  (forall a, eqM (w a) (ret tt)) -> eqM (walkOpt w o) (ret tt).
Proof.
  intros Hw. destruct o; simpl; [apply Hw | apply eqM_refl].
Qed.

(** When the inspecting function answers true on [n] and on nil without
    touching the pass, visiting [n] is walking its children. *)
Lemma visit_through (f : option Node -> M bool) (n : Node) (c1 c2 : M unit) :
  eqM (f (Some n)) (ret true) -> eqM (f None) (ret true) ->
  eqM c1 c2 -> eqM (visit f n c1) c2.
Proof.
  intros Hn Hnil Hc pass. unfold visit, bind. rewrite Hn. simpl.
  rewrite Hc. destruct (c2 pass) as [[[] pass']|]; [|reflexivity].
  rewrite Hnil. reflexivity.
Qed.

Lemma bind_inert_l {A} (m1 : M unit) (m2 m : M A) :
  eqM m1 (ret tt) -> eqM m2 m -> eqM (m1 ;; m2) m.
Proof. intros H1 H2 pass. unfold bind. rewrite H1. simpl. apply H2. Qed.

Lemma bind_inert_r (m1 m2 m : M unit) :
  eqM m2 (ret tt) -> eqM m1 m -> eqM (m1 ;; m2) m.
Proof.
  intros H2 H1 pass. unfold bind. rewrite H1.
  destruct (m pass) as [[[] pass']|]; [|reflexivity].
  rewrite H2. reflexivity.
Qed.

Lemma walk_Ident_inert (f : option Node -> M bool) (id : Ident) :
  eqM (f (Some (NExpr (EIdent id)))) (ret true) -> eqM (f None) (ret true) ->
  eqM (walk_Ident f id) (ret tt).
Proof. intros Hn Hnil. apply visit_through; [exact Hn | exact Hnil | apply eqM_refl]. Qed.

Lemma walk_BasicLit_inert (f : option Node -> M bool) (lit : BasicLit) :
  eqM (f (Some (NExpr (EBasicLit lit)))) (ret true) -> eqM (f None) (ret true) ->
  eqM (walk_BasicLit f lit) (ret tt).
Proof. intros Hn Hnil. apply visit_through; [exact Hn | exact Hnil | apply eqM_refl]. Qed.

(** [eqM_leaf] closes goals saying that walking identifiers and basic
    literals does nothing, for an inspecting function that computes to
    [ret true] on them; [eqM_congr] walks two sequences of children in
    step, dropping such leaves. *)
Ltac eqM_leaf :=
  first
    [ apply walk_Ident_inert; apply eqM_refl
    | apply walk_BasicLit_inert; apply eqM_refl
    | apply walkList_inert; intros ?; eqM_leaf
    | apply walkOpt_inert; intros ?; eqM_leaf ].

Ltac eqM_step :=
  first
    [ assumption
    | apply eqM_refl
    | eqM_leaf
    | apply bind_inert_l; [solve [eqM_leaf]|]
    | apply bind_inert_r; [solve [eqM_leaf]|]
    | apply bind_eqM; [|intros ?]
    | apply walkList_eqM; assumption
    | apply walkOpt_eqM; assumption ].

Ltac eqM_congr := repeat eqM_step.

(** ** [checkDeferInTestFunc] is [ast.Inspect] on the function of the source *)

Lemma check_is_walk :
  (forall e, eqM (walk_Expr checkDeferInTestFunc_func e) (check_Expr e)) /\
  (forall lit, eqM (walk_FuncLit checkDeferInTestFunc_func lit) (check_FuncLit lit)) /\
  (forall call, eqM (walk_CallExpr checkDeferInTestFunc_func call) (check_CallExpr call)) /\
  (forall ft, eqM (walk_FuncType checkDeferInTestFunc_func ft) (check_FuncType ft)) /\
  (forall l, eqM (walk_FieldList checkDeferInTestFunc_func l) (check_FieldList l)) /\
  (forall field, eqM (walk_Field checkDeferInTestFunc_func field) (check_Field field)) /\
  (forall s, eqM (walk_Stmt checkDeferInTestFunc_func s) (check_Stmt s)) /\
  (forall block, eqM (walk_BlockStmt checkDeferInTestFunc_func block) (check_BlockStmt block)) /\
  (forall d, eqM (walk_GenDecl checkDeferInTestFunc_func d) (check_GenDecl d)) /\
  (forall s, eqM (walk_Spec checkDeferInTestFunc_func s) (check_Spec s)).
Proof.
  apply ast_mutind; intros; simpl;
    try (apply visit_through; [apply eqM_refl | apply eqM_refl | ]);
    try solve [eqM_congr].
  - (* FuncLit: the children are never walked *)
    intros pass. unfold visit, bind; simpl.
    destruct (hasFuncLitTestingTParam (mkFuncLit Type_ Body)); [|reflexivity].
    unfold bind; simpl. destruct Body as [body|]; simpl; [|reflexivity].
    destruct (check_BlockStmt body pass) as [[[] pass']|]; reflexivity.
  - (* DeferStmt: report, then go on into the call *)
    intros pass. unfold visit, bind; simpl. rewrite H.
    destruct (check_CallExpr Call _) as [[[] pass']|]; reflexivity.
Qed.

(** The body of [checkDeferInTestFunc], as written in the source. *)
Lemma checkDeferInTestFunc_Inspect (body : option BlockStmt) :
  eqM (checkDeferInTestFunc body)
      (Inspect_BlockStmt checkDeferInTestFunc_func body).
Proof.
  destruct body as [block|]; simpl.
  - intros pass. symmetry. apply check_is_walk.
  - intros pass. reflexivity.
Qed.

(** ** Walking with the function of [run]

    Below a function declaration there is no further function
    declaration, so the function of [run] answers true on every node and
    the walk does nothing: it succeeds on a complete tree and panics on a
    literal that lacks its signature or body. *)

Lemma guard_bind (m1 m2 : M unit) (b1 b2 : bool) :
  eqM m1 (guard b1) -> eqM m2 (guard b2) -> eqM (m1 ;; m2) (guard (b1 && b2)).
Proof.
  intros H1 H2 pass. unfold bind. rewrite H1.
  destruct b1; simpl; [apply H2 | reflexivity].
Qed.

Lemma guard_true (m : M unit) : eqM m (ret tt) -> eqM m (guard true).
Proof. intros H; exact H. Qed.

Lemma walkList_guard {A} (w : A -> M unit) (c : A -> bool) (l : list A) :
  list_all (fun a => eqM (w a) (guard (c a))) l ->
  eqM (walkList w l) (guard (forallb c l)).
Proof.
  induction 1 as [|a Ha l _ IH]; simpl.
  - apply eqM_refl.
  - apply guard_bind; assumption.
Qed.

Lemma walkOpt_guard {A} (w : A -> M unit) (c : A -> bool) (o : option A) :
  option_all (fun a => eqM (w a) (guard (c a))) o ->
  eqM (walkOpt w o) (guard (optb c o)).
Proof.
  destruct 1 as [a Ha|]; simpl; [exact Ha | apply eqM_refl].
Qed.

Ltac guard_step :=
  first
    [ assumption
    | apply bind_inert_l; [solve [eqM_leaf]|]
    | apply bind_inert_r; [solve [eqM_leaf]|]
    | apply guard_bind
    | apply walkList_guard; assumption
    | apply walkOpt_guard; assumption
    | apply guard_true; first [apply eqM_refl | eqM_leaf] ].

Lemma run_func_walk :
  (forall e, eqM (walk_Expr run_func e) (guard (complete_Expr e))) /\
  (forall lit, eqM (walk_FuncLit run_func lit) (guard (complete_FuncLit lit))) /\
  (forall call, eqM (walk_CallExpr run_func call) (guard (complete_CallExpr call))) /\
  (forall ft, eqM (walk_FuncType run_func ft) (guard (complete_FuncType ft))) /\
  (forall l, eqM (walk_FieldList run_func l) (guard (complete_FieldList l))) /\
  (forall field, eqM (walk_Field run_func field) (guard (complete_Field field))) /\
  (forall s, eqM (walk_Stmt run_func s) (guard (complete_Stmt s))) /\
  (forall block, eqM (walk_BlockStmt run_func block) (guard (complete_BlockStmt block))) /\
  (forall d, eqM (walk_GenDecl run_func d) (guard (complete_GenDecl d))) /\
  (forall s, eqM (walk_Spec run_func s) (guard (complete_Spec s))).
Proof.
  apply ast_mutind; intros; simpl;
    try (apply visit_through; [apply eqM_refl | apply eqM_refl | ]);
    rewrite <- ?andb_assoc;
    try solve [repeat guard_step].
  (* FuncLit: the two children are walked without a nil test *)
  destruct H as [ft Hft|]; [destruct H0 as [body Hbody|]|]; simpl.
  - apply guard_bind; assumption.
  - intros pass. unfold bind. rewrite Hft.
    destruct (complete_FuncType ft); reflexivity.
  - intros pass. reflexivity.
Qed.

(** The function of [run] on a declaration that it does not take for a
    test: nothing is reported from anywhere inside the declaration. *)
Lemma walk_FuncDecl_skipped (d : FuncDecl) :
  negb (isTestFunction d) || negb (hasTestingTParam d) = true ->
  eqM (walk_FuncDecl run_func d) (guard (complete_FuncDecl d)).
Proof.
  intros Hskip. unfold walk_FuncDecl, complete_FuncDecl.
  apply visit_through.
  - intros pass. simpl. rewrite Hskip. reflexivity.
  - apply eqM_refl.
  - destruct run_func_walk as (_ & _ & _ & HFT & HFL & _ & _ & HB & _).
    rewrite <- ?andb_assoc.
    apply guard_bind.
    + destruct (FuncDecl_Recv d); simpl; [apply HFL | apply eqM_refl].
    + apply bind_inert_l; [eqM_leaf|].
      apply guard_bind; [apply HFT|].
      destruct (FuncDecl_Body d); simpl; [apply HB | apply eqM_refl].
Qed.

(** The function of [run] on a declaration that it takes for a test: the
    body goes to [checkDeferInTestFunc] and nothing else is walked. *)
Lemma walk_FuncDecl_taken (d : FuncDecl) :
  negb (isTestFunction d) || negb (hasTestingTParam d) = false ->
  eqM (walk_FuncDecl run_func d) (checkDeferInTestFunc (FuncDecl_Body d)).
Proof.
  intros Htaken pass. unfold walk_FuncDecl, visit, bind. simpl.
  rewrite Htaken. unfold bind.
  destruct (checkDeferInTestFunc (FuncDecl_Body d) pass) as [[[] pass']|]; reflexivity.
Qed.

(** ** The walker reports exactly the reachable deferred statements *)

Lemma emit_nil : eqM (ret tt) (emit []).
Proof.
  intros [files diags]. unfold ret, emit, findings. simpl.
  rewrite app_nil_r. reflexivity.
Qed.

Lemma emit_bind (m1 m2 : M unit) (l1 l2 : list Pos) :
  eqM m1 (emit l1) -> eqM m2 (emit l2) -> eqM (m1 ;; m2) (emit (l1 ++ l2)).
Proof.
  intros H1 H2 pass. unfold bind. rewrite H1. unfold emit at 1.
  rewrite H2. unfold emit, findings. simpl.
  rewrite map_app, app_assoc. reflexivity.
Qed.

Lemma Reportf_emit (p : Pos) : eqM (Reportf p deferMessage) (emit [p]).
Proof. intros pass. reflexivity. Qed.

Lemma walkList_emit {A} (w : A -> M unit) (c : A -> bool) (r : A -> list Pos)
      (l : list A) :
  list_all (fun a => c a = true -> eqM (w a) (emit (r a))) l ->
  forallb c l = true ->
  eqM (walkList w l) (emit (flat_map r l)).
Proof.
  induction 1 as [|a Ha l _ IH]; simpl; intros Hc.
  - apply emit_nil.
  - apply andb_true_iff in Hc. destruct Hc as [Hca Hcl].
    apply emit_bind; [apply Ha; exact Hca | apply IH; exact Hcl].
Qed.

Lemma walkOpt_emit {A} (w : A -> M unit) (c : A -> bool) (r : A -> list Pos)
      (o : option A) :
  option_all (fun a => c a = true -> eqM (w a) (emit (r a))) o ->
  optb c o = true ->
  eqM (walkOpt w o) (emit (optl r o)).
Proof.
  destruct 1 as [a Ha|]; simpl; intros Hc; [apply Ha; exact Hc | apply emit_nil].
Qed.

Ltac split_complete :=
  repeat match goal with
         | H : _ && _ = true |- _ => apply andb_true_iff in H; destruct H
         end.

Ltac emit_step :=
  first
    [ apply emit_nil
    | match goal with
      | H : _ -> eqM ?m _ |- eqM ?m _ => apply H; assumption
      end
    | apply emit_bind
    | eapply walkList_emit; eassumption
    | eapply walkOpt_emit; eassumption ].

(** ** The signature and name predicates of the source *)

Lemma hasFuncLitTestingTParam_loop_existsb (fields : list Field) :
  hasFuncLitTestingTParam_loop fields = existsb fieldQualifiesb fields.
Proof.
  induction fields as [|field rest IH]; simpl; [reflexivity|].
  unfold fieldQualifiesb at 1.
  destruct (Field_Type field) as [[]|]; simpl; try exact IH.
  destruct X; simpl; try exact IH.
  destruct X; simpl; try exact IH.
  rewrite <- IH.
  destruct ((Ident_Name id =? "testing")
            && ((Ident_Name Sel =? "T") || (Ident_Name Sel =? "B")));
    reflexivity.
Qed.

Lemma hasTestingTParam_loop_existsb (fields : list Field) :
  hasTestingTParam_loop fields = existsb fieldQualifiesb fields.
Proof.
  induction fields as [|field rest IH]; simpl; [reflexivity|].
  unfold fieldQualifiesb at 1.
  destruct (Field_Type field) as [[]|]; simpl; try exact IH.
  destruct X; simpl; try exact IH.
  destruct X; simpl; try exact IH.
  rewrite <- IH.
  destruct ((Ident_Name id =? "testing")
            && ((Ident_Name Sel =? "T") || (Ident_Name Sel =? "B")));
    reflexivity.
Qed.

Lemma hasFuncLitTestingTParam_decides (lit : FuncLit) :
  hasFuncLitTestingTParam lit = nestedTestContextb lit.
Proof.
  unfold hasFuncLitTestingTParam, nestedTestContextb, signatureQualifiesb.
  destruct (FuncLit_Type lit) as [ft|]; [|reflexivity].
  destruct (FuncType_Params ft) as [params|]; [|reflexivity].
  apply hasFuncLitTestingTParam_loop_existsb.
Qed.

Lemma hasTestingTParam_decides (d : FuncDecl) :
  hasTestingTParam d = signatureQualifiesb (FuncType_Params (FuncDecl_Type d)).
Proof.
  unfold hasTestingTParam, signatureQualifiesb.
  destruct (FuncType_Params (FuncDecl_Type d)) as [params|]; [|reflexivity].
  rewrite hasTestingTParam_loop_existsb.
  destruct (FieldList_List params); reflexivity.
Qed.

Lemma testContextParameterShapeb_spec (ty : Expr) :
  testContextParameterShapeb ty = true <-> TestContextParameterShape ty.
Proof.
  unfold TestContextParameterShape. split.
  - destruct ty; simpl; try discriminate.
    destruct ty; simpl; try discriminate.
    destruct ty; simpl; try discriminate.
    intros H. apply andb_true_iff in H. destruct H as [Hpkg Hsel].
    apply orb_true_iff in Hsel.
    exists id, Sel. split; [reflexivity|]. split.
    + apply String.eqb_eq. exact Hpkg.
    + destruct Hsel as [H|H]; [left | right]; apply String.eqb_eq; exact H.
  - intros (pkg & sel & -> & Hpkg & Hsel). simpl.
    rewrite Hpkg. simpl. destruct Hsel as [-> | ->]; reflexivity.
Qed.

Lemma signatureQualifiesb_spec (params : option FieldList) :
  signatureQualifiesb params = true <-> SignatureQualifies params.
Proof.
  unfold signatureQualifiesb, SignatureQualifies. split.
  - destruct params as [l|]; [|discriminate].
    intros H. apply existsb_exists in H. destruct H as (field & Hin & Hq).
    unfold fieldQualifiesb in Hq.
    destruct (Field_Type field) as [ty|] eqn:Hty; [|discriminate].
    exists l, field, ty. repeat split; try assumption.
    apply testContextParameterShapeb_spec. exact Hq.
  - intros (l & field & ty & -> & Hin & Hty & Hshape).
    apply existsb_exists. exists field. split; [exact Hin|].
    unfold fieldQualifiesb. rewrite Hty.
    apply testContextParameterShapeb_spec. exact Hshape.
Qed.

Lemma nestedTestContextb_spec (lit : FuncLit) :
  nestedTestContextb lit = true <-> NestedTestContext lit.
Proof.
  unfold nestedTestContextb, NestedTestContext. split.
  - destruct (FuncLit_Type lit) as [ft|]; [|discriminate].
    intros H. exists ft. split; [reflexivity|].
    apply signatureQualifiesb_spec. exact H.
  - intros (ft & -> & H). apply signatureQualifiesb_spec. exact H.
Qed.

(** [name[:n] == prefix] for a prefix of [n] bytes. *)
Lemma substring_prefix (pre rest : string) :
  substring 0 (String.length pre) (pre ++ rest) = pre.
Proof.
  induction pre as [|c pre IH]; simpl.
  - destruct rest; reflexivity.
  - rewrite IH. reflexivity.
Qed.

Lemma substring_split (n : nat) (s : string) :
  (n <= String.length s)%nat ->
  exists rest, s = substring 0 n s ++ rest /\ String.length rest = (String.length s - n)%nat.
Proof.
  revert s. induction n as [|n IH]; intros s Hlen.
  - exists s. split; [destruct s; reflexivity | lia].
  - destruct s as [|c s]; simpl in Hlen; [lia|].
    destruct (IH s) as (rest & Heq & Hrest); [lia|].
    exists rest. simpl. split; [rewrite <- Heq; reflexivity | exact Hrest].
Qed.

Lemma length_append (s1 s2 : string) :
  String.length (s1 ++ s2) = (String.length s1 + String.length s2)%nat.
Proof. induction s1 as [|c s1 IH]; simpl; [reflexivity | rewrite IH; reflexivity]. Qed.

(** [len(name) > n && name[:n] == pre], for [pre] of [n] bytes: [name] is
    [pre] followed by at least one more byte. *)
Lemma prefix_test_spec (pre name : string) :
  (String.length pre <? String.length name)%nat
  && (substring 0 (String.length pre) name =? pre) = true
  <-> exists c rest, name = pre ++ String c rest.
Proof.
  split.
  - intros H. apply andb_true_iff in H. destruct H as [Hlen Hpre].
    apply Nat.ltb_lt in Hlen. apply String.eqb_eq in Hpre.
    destruct (@substring_split (String.length pre) name) as (rest & Heq & Hrest); [lia|].
    rewrite Hpre in Heq. destruct rest as [|c rest]; simpl in Hrest; [lia|].
    exists c, rest. exact Heq.
  - intros (c & rest & ->). rewrite substring_prefix, String.eqb_refl.
    rewrite length_append. simpl. rewrite andb_true_r.
    apply Nat.ltb_lt. lia.
Qed.

Lemma isTestFunction_spec (d : FuncDecl) :
  isTestFunction d = true <-> NameQualifies (Ident_Name (FuncDecl_Name d)).
Proof.
  unfold isTestFunction, NameQualifies.
  set (name := Ident_Name (FuncDecl_Name d)).
  pose proof (prefix_test_spec "Test" name) as HT.
  pose proof (prefix_test_spec "Benchmark" name) as HB.
  simpl String.length in HT, HB.
  destruct ((4 <? String.length name)%nat && (substring 0 4 name =? "Test")).
  - split; [intros _ | reflexivity].
    destruct HT as [HT _]. destruct (HT eq_refl) as (c & rest & Heq).
    exists c, rest. left. exact Heq.
  - destruct ((9 <? String.length name)%nat && (substring 0 9 name =? "Benchmark")).
    + split; [intros _ | reflexivity].
      destruct HB as [HB _]. destruct (HB eq_refl) as (c & rest & Heq).
      exists c, rest. right. exact Heq.
    + split; [discriminate|].
      intros (c & rest & [Heq | Heq]).
      * destruct HT as [_ HT]. apply HT. exists c, rest. exact Heq.
      * destruct HB as [_ HB]. apply HB. exists c, rest. exact Heq.
Qed.

(** ** The walker on complete trees *)

Lemma check_reaches :
  (forall e, complete_Expr e = true ->
             eqM (check_Expr e) (emit (reachableDefers_Expr e))) /\
  (forall lit, complete_FuncLit lit = true ->
               eqM (check_FuncLit lit) (emit (reachableDefers_FuncLit lit))) /\
  (forall call, complete_CallExpr call = true ->
                eqM (check_CallExpr call) (emit (reachableDefers_CallExpr call))) /\
  (forall ft, complete_FuncType ft = true ->
              eqM (check_FuncType ft) (emit (reachableDefers_FuncType ft))) /\
  (forall l, complete_FieldList l = true ->
             eqM (check_FieldList l) (emit (reachableDefers_FieldList l))) /\
  (forall field, complete_Field field = true ->
                 eqM (check_Field field) (emit (reachableDefers_Field field))) /\
  (forall s, complete_Stmt s = true ->
             eqM (check_Stmt s) (emit (reachableDefers_Stmt s))) /\
  (forall block, complete_BlockStmt block = true ->
                 eqM (check_BlockStmt block) (emit (reachableDefers_BlockStmt block))) /\
  (forall d, complete_GenDecl d = true ->
             eqM (check_GenDecl d) (emit (reachableDefers_GenDecl d))) /\
  (forall s, complete_Spec s = true ->
             eqM (check_Spec s) (emit (reachableDefers_Spec s))).
Proof.
  apply ast_mutind; intros; simpl in *; split_complete;
    try solve [repeat emit_step].
  - (* FuncLit *)
    rewrite hasFuncLitTestingTParam_decides.
    destruct (nestedTestContextb (mkFuncLit Type_ Body)); [|apply emit_nil].
    destruct Type_ as [ft|]; [|discriminate].
    destruct Body as [body|]; [|discriminate].
    apply andb_true_iff in H1. destruct H1 as [_ Hbody].
    inversion H0 as [body' IH|]; subst. simpl. apply IH. exact Hbody.
  - (* DeferStmt *)
    apply (@emit_bind _ _ [Defer]); [apply Reportf_emit | apply H; assumption].
Qed.

(** ** [run] over the files of a pass *)

Lemma walk_Decl_BadDecl : eqM (walk_Decl run_func BadDecl) (ret tt).
Proof. apply visit_through; apply eqM_refl. Qed.

Lemma walk_File_decls (file : File) :
  eqM (walk_File run_func file) (walkList (walk_Decl run_func) (File_Decls file)).
Proof.
  unfold walk_File. apply visit_through; [apply eqM_refl | apply eqM_refl |].
  apply bind_inert_l; [eqM_leaf | apply eqM_refl].
Qed.

(** [run] is the walk of every declaration of every file, in order. *)
Lemma run_decls (pass : Pass) :
  run pass
  = walkList (fun file => walkList (walk_Decl run_func) (File_Decls file))
             (Pass_Files pass) pass.
Proof.
  unfold run. generalize (Pass_Files pass) as files. intros files. revert pass.
  induction files as [|file files IH]; intros pass; simpl; [reflexivity|].
  unfold bind, Inspect_File. rewrite walk_File_decls.
  destruct (walkList (walk_Decl run_func) (File_Decls file) pass) as [[[] pass']|];
    [apply IH | reflexivity].
Qed.

(** ** The fixtures, run

    The expectations are the [want] comments of the test data. *)

Module FixtureChecks.
Import Fixtures.
Local Open Scope Z_scope.

(** [TestWithDefer] *)
Example TestWithDefer :
  let decls :=
    [funcDecl "TestWithDefer" [param "t" ptrTestingT]
       [deferCleanup 9;
        IfStmt None someCondition
               (mkBlockStmt [callStmt "t" "Fatal" [ident "msg"]]) None]] in
  run (package decls) = reported decls [9].
Proof. reflexivity. Qed.

(** [TestMultipleDefers]: the deferred literal takes no parameter. *)
Example TestMultipleDefers :
  let decls :=
    [funcDecl "TestMultipleDefers" [param "t" ptrTestingT]
       [DeferStmt 20 (mkCallExpr (funcLit [] []) []);
        deferCleanup 24]] in
  run (package decls) = reported decls [20%Z; 24].
Proof. reflexivity. Qed.

(** [TestWithCleanup] *)
Example TestWithCleanup :
  let decls :=
    [funcDecl "TestWithCleanup" [param "t" ptrTestingT]
       [callStmt "t" "Cleanup" [ident "cleanup"]]] in
  run (package decls) = reported decls [].
Proof. reflexivity. Qed.

(** [TestDeferInIfBlock], [TestDeferInForLoop], [TestDeferInSwitchCase] *)
Example TestDeferInIfBlock :
  let decls :=
    [funcDecl "TestDeferInIfBlock" [param "t" ptrTestingT]
       [IfStmt None someCondition (mkBlockStmt [deferCleanup 131]) None]] in
  run (package decls) = reported decls [131].
Proof. reflexivity. Qed.

Example TestDeferInForLoop :
  let decls :=
    [funcDecl "TestDeferInForLoop" [param "t" ptrTestingT]
       [ForStmt (Some (AssignStmt [ident "i"] 47 [ident "zero"]))
                (Some (BinaryExpr (ident "i") 40 (ident "three")))
                (Some (IncDecStmt (ident "i") 37))
                (mkBlockStmt [deferCleanup 139])]] in
  run (package decls) = reported decls [139].
Proof. reflexivity. Qed.

Example TestDeferInSwitchCase :
  let decls :=
    [funcDecl "TestDeferInSwitchCase" [param "t" ptrTestingT]
       [SwitchStmt None None
          (mkBlockStmt
             [CaseClause [someCondition] [deferCleanup 148];
              CaseClause [] [DeferStmt 150 (mkCallExpr (funcLit [] []) [])]])]] in
  run (package decls) = reported decls [148%Z; 150].
Proof. reflexivity. Qed.

(** [TestNestedFuncLitWithoutTestingT] and [TestNestedFuncLitWithTestingT] *)
Example TestNestedFuncLitWithoutTestingT :
  let decls :=
    [funcDecl "TestNestedFuncLitWithoutTestingT" [param "t" ptrTestingT]
       [deferCleanup 169;
        AssignStmt [ident "fn"] 47 [funcLit [] [deferCleanup 174]]]] in
  run (package decls) = reported decls [169].
Proof. reflexivity. Qed.

Example TestNestedFuncLitWithTestingT :
  let decls :=
    [funcDecl "TestNestedFuncLitWithTestingT" [param "t" ptrTestingT]
       [deferCleanup 181;
        AssignStmt [ident "fn"] 47
                   [funcLit [param "t" ptrTestingT] [deferCleanup 186]]]] in
  run (package decls) = reported decls [181%Z; 186].
Proof. reflexivity. Qed.

(** [TestDeepNestedFuncLit] *)
Example TestDeepNestedFuncLit :
  let inner :=
    funcLit [param "t" ptrTestingT]
      [deferCleanup 197;
       AssignStmt [ident "fn"] 47 [funcLit [] [deferCleanup 201]]] in
  let outer :=
    funcLit [param "t" ptrTestingT]
      [deferCleanup 194; callStmt "t" "Run" [ident "inner"; inner]] in
  let decls :=
    [funcDecl "TestDeepNestedFuncLit" [param "t" ptrTestingT]
       [callStmt "t" "Run" [ident "outer"; outer]]] in
  run (package decls) = reported decls [194%Z; 197].
Proof. reflexivity. Qed.

(** [BenchmarkWithDefer] *)
Example BenchmarkWithDefer :
  let decls :=
    [funcDecl "BenchmarkWithDefer" [param "b" ptrTestingB] [deferCleanup 210]] in
  run (package decls) = reported decls [210].
Proof. reflexivity. Qed.

(** [TestWithoutTestingT], [TestWithWrongParameterType],
    [NotATestFunction], [Test] and [TestA] *)
Example the_boundary_declarations :
  let decls :=
    [funcDecl "TestWithoutTestingT" [] [deferCleanup 274];
     funcDecl "TestWithWrongParameterType" [param "s" (ident "string")]
              [deferCleanup 279];
     funcDecl "NotATestFunction" [param "t" ptrTestingT] [deferCleanup 317];
     funcDecl "Test" [param "t" ptrTestingT] [deferCleanup 322];
     funcDecl "TestA" [param "t" ptrTestingT] [deferCleanup 327]] in
  run (package decls) = reported decls [327].
Proof. reflexivity. Qed.

End FixtureChecks.

(** ** What a computation may add to the pass *)

Lemma Extends_refl (pass : Pass) : Extends pass pass.
Proof.
  exists []. destruct pass as [files diags]. simpl.
  rewrite app_nil_r. reflexivity.
Qed.

Lemma Extends_trans (p1 p2 p3 : Pass) : Extends p1 p2 -> Extends p2 p3 -> Extends p1 p3.
Proof.
  intros [ps1 ->] [ps2 ->]. exists (ps1 ++ ps2)%list. simpl.
  unfold findings. rewrite map_app, app_assoc. reflexivity.
Qed.

Lemma OnlyFindings_ret {A} (a : A) : OnlyFindings (ret a).
Proof. intros pass a' pass' H. inversion H; subst. apply Extends_refl. Qed.

Lemma OnlyFindings_panic {A} : OnlyFindings (@panic A).
Proof. intros pass a pass' H. discriminate H. Qed.

Lemma OnlyFindings_guard (b : bool) : OnlyFindings (guard b).
Proof. destruct b; [apply OnlyFindings_ret | apply OnlyFindings_panic]. Qed.

Lemma OnlyFindings_emit (ps : list Pos) : OnlyFindings (emit ps).
Proof. intros pass a pass' H. inversion H; subst. exists ps. reflexivity. Qed.

Lemma OnlyFindings_Reportf (p : Pos) : OnlyFindings (Reportf p deferMessage).
Proof. apply (@OnlyFindings_emit [p]). Qed.

Lemma OnlyFindings_bind {A B} (m : M A) (k : A -> M B) :
  OnlyFindings m -> (forall a, OnlyFindings (k a)) -> OnlyFindings (bind m k).
Proof.
  intros Hm Hk pass b pass' H. unfold bind in H.
  destruct (m pass) as [[a pass1]|] eqn:Hrun; [|discriminate].
  eapply Extends_trans; [eapply Hm; exact Hrun | eapply Hk; exact H].
Qed.

Lemma OnlyFindings_eqM {A} (m1 m2 : M A) :
  eqM m1 m2 -> OnlyFindings m2 -> OnlyFindings m1.
Proof. intros Heq H2 pass a pass' H. rewrite Heq in H. eapply H2; exact H. Qed.

Lemma OnlyFindings_walkList {A} (w : A -> M unit) (l : list A) :
  list_all (fun a => OnlyFindings (w a)) l -> OnlyFindings (walkList w l).
Proof.
  induction 1 as [|a Ha l _ IH]; simpl.
  - apply OnlyFindings_ret.
  - apply OnlyFindings_bind; [exact Ha | intros _; exact IH].
Qed.

Lemma OnlyFindings_walkList_all {A} (w : A -> M unit) (l : list A) :
  (forall a, OnlyFindings (w a)) -> OnlyFindings (walkList w l).
Proof.
  intros Hw. induction l as [|a l IH]; simpl.
  - apply OnlyFindings_ret.
  - apply OnlyFindings_bind; [apply Hw | intros _; exact IH].
Qed.

Lemma OnlyFindings_walkOpt {A} (w : A -> M unit) (o : option A) :
  option_all (fun a => OnlyFindings (w a)) o -> OnlyFindings (walkOpt w o).
Proof.
  destruct 1 as [a Ha|]; simpl; [exact Ha | apply OnlyFindings_ret].
Qed.

Ltac only_findings :=
  repeat first
    [ assumption
    | apply OnlyFindings_ret
    | apply OnlyFindings_panic
    | apply OnlyFindings_Reportf
    | apply OnlyFindings_bind; [|intros ?]
    | apply OnlyFindings_walkList; assumption
    | apply OnlyFindings_walkOpt; assumption ].

Lemma check_only_findings :
  (forall e, OnlyFindings (check_Expr e)) /\
  (forall lit, OnlyFindings (check_FuncLit lit)) /\
  (forall call, OnlyFindings (check_CallExpr call)) /\
  (forall ft, OnlyFindings (check_FuncType ft)) /\
  (forall l, OnlyFindings (check_FieldList l)) /\
  (forall field, OnlyFindings (check_Field field)) /\
  (forall s, OnlyFindings (check_Stmt s)) /\
  (forall block, OnlyFindings (check_BlockStmt block)) /\
  (forall d, OnlyFindings (check_GenDecl d)) /\
  (forall s, OnlyFindings (check_Spec s)).
Proof.
  apply ast_mutind; intros; simpl; try solve [only_findings].
  (* FuncLit *)
  destruct (hasFuncLitTestingTParam (mkFuncLit Type_ Body)); [|apply OnlyFindings_ret].
  destruct H0 as [body Hbody|]; [exact Hbody | apply OnlyFindings_panic].
Qed.

Lemma checkDeferInTestFunc_only_findings (body : option BlockStmt) :
  OnlyFindings (checkDeferInTestFunc body).
Proof.
  destruct body as [block|]; simpl;
    [apply check_only_findings | apply OnlyFindings_panic].
Qed.

Lemma walk_Decl_only_findings (d : Decl) : OnlyFindings (walk_Decl run_func d).
Proof.
  destruct d as [|g|fd]; simpl.
  - eapply OnlyFindings_eqM; [apply walk_Decl_BadDecl | apply OnlyFindings_ret].
  - eapply OnlyFindings_eqM; [apply run_func_walk | apply OnlyFindings_guard].
  - destruct (negb (isTestFunction fd) || negb (hasTestingTParam fd)) eqn:Hskip.
    + eapply OnlyFindings_eqM;
        [apply walk_FuncDecl_skipped; exact Hskip | apply OnlyFindings_guard].
    + eapply OnlyFindings_eqM;
        [apply walk_FuncDecl_taken; exact Hskip
        | apply checkDeferInTestFunc_only_findings].
Qed.

Lemma run_only_findings : OnlyFindings run.
Proof.
  intros pass a pass' H. rewrite run_decls in H. revert H.
  apply OnlyFindings_walkList_all. intros file.
  apply OnlyFindings_walkList_all. apply walk_Decl_only_findings.
Qed.

Lemma walkList_app {A} (w : A -> M unit) (l1 l2 : list A) :
  eqM (walkList w (l1 ++ l2)) (walkList w l1 ;; walkList w l2).
Proof.
  induction l1 as [|a l1 IH]; simpl.
  - intros pass. reflexivity.
  - intros pass. unfold bind at 1 2 3.
    destruct (w a pass) as [[[] pass1]|]; [apply IH | reflexivity].
Qed.

(** The entry-point test of [run], against the specification's rule. *)
Lemma entry_test_spec (d : FuncDecl) :
  negb (isTestFunction d) || negb (hasTestingTParam d) = false <-> TestEntryPoint d.
Proof.
  unfold TestEntryPoint.
  rewrite <- isTestFunction_spec, <- signatureQualifiesb_spec,
          <- hasTestingTParam_decides.
  destruct (isTestFunction d), (hasTestingTParam d); simpl; intuition discriminate.
Qed.

Lemma entry_test_not_spec (d : FuncDecl) :
  negb (isTestFunction d) || negb (hasTestingTParam d) = true <-> ~ TestEntryPoint d.
Proof.
  rewrite <- entry_test_spec.
  destruct (negb (isTestFunction d) || negb (hasTestingTParam d));
    intuition discriminate.
Qed.

(** What [run] does with one function declaration. *)
Lemma walk_FuncDecl_not_entry (d : FuncDecl) (pass : Pass) :
  ~ TestEntryPoint d ->
  walk_Decl run_func (DFuncDecl d) pass
  = if complete_FuncDecl d then Ok (tt, pass) else Panic.
Proof.
  intros Hnot. simpl. rewrite walk_FuncDecl_skipped.
  - destruct (complete_FuncDecl d); reflexivity.
  - apply entry_test_not_spec. exact Hnot.
Qed.

Lemma NameQualifies_prefix (name : string) :
  NameQualifies name -> HasRecognizedPrefix name.
Proof.
  intros (c & rest & H). exists (String c rest). exact H.
Qed.

(** ** The walker and erased literals *)

Lemma walkList_map_eqM {A} (w : A -> M unit) (g : A -> A) (l : list A) :
  list_all (fun a => eqM (w (g a)) (w a)) l ->
  eqM (walkList w (map g l)) (walkList w l).
Proof.
  induction 1 as [|a Ha l _ IH]; simpl.
  - apply eqM_refl.
  - apply bind_eqM; [exact Ha | intros _; exact IH].
Qed.

Lemma walkOpt_map_eqM {A} (w : A -> M unit) (g : A -> A) (o : option A) :
  option_all (fun a => eqM (w (g a)) (w a)) o ->
  eqM (walkOpt w (option_map g o)) (walkOpt w o).
Proof.
  destruct 1 as [a Ha|]; simpl; [exact Ha | apply eqM_refl].
Qed.

Ltac erase_congr :=
  repeat first
    [ assumption
    | apply eqM_refl
    | apply bind_eqM; [|intros ?]
    | apply walkList_map_eqM; assumption
    | apply walkOpt_map_eqM; assumption ].

(** The walker cannot tell a tree from its erasure. *)
Lemma check_eraseSkipped :
  (forall e, eqM (check_Expr (eraseSkipped_Expr e)) (check_Expr e)) /\
  (forall lit, eqM (check_FuncLit (eraseSkipped_FuncLit lit)) (check_FuncLit lit)) /\
  (forall call, eqM (check_CallExpr (eraseSkipped_CallExpr call)) (check_CallExpr call)) /\
  (forall ft, eqM (check_FuncType (eraseSkipped_FuncType ft)) (check_FuncType ft)) /\
  (forall l, eqM (check_FieldList (eraseSkipped_FieldList l)) (check_FieldList l)) /\
  (forall field, eqM (check_Field (eraseSkipped_Field field)) (check_Field field)) /\
  (forall s, eqM (check_Stmt (eraseSkipped_Stmt s)) (check_Stmt s)) /\
  (forall block, eqM (check_BlockStmt (eraseSkipped_BlockStmt block))
                     (check_BlockStmt block)) /\
  (forall d, eqM (check_GenDecl (eraseSkipped_GenDecl d)) (check_GenDecl d)) /\
  (forall s, eqM (check_Spec (eraseSkipped_Spec s)) (check_Spec s)).
Proof.
  apply ast_mutind; intros; simpl; try solve [erase_congr].
  (* FuncLit *)
  destruct (hasFuncLitTestingTParam (mkFuncLit Type_ Body)) eqn:Hq; simpl.
  - change (hasFuncLitTestingTParam
              (mkFuncLit Type_ (option_map eraseSkipped_BlockStmt Body)))
      with (hasFuncLitTestingTParam (mkFuncLit Type_ Body)).
    rewrite Hq. destruct H0 as [body Hbody|]; simpl; [exact Hbody | apply eqM_refl].
  - change (hasFuncLitTestingTParam (mkFuncLit Type_ None))
      with (hasFuncLitTestingTParam (mkFuncLit Type_ Body)).
    rewrite Hq. apply eqM_refl.
Qed.

(** * The properties *)

(** *** Entry points *)

(** C3.  [run] hands the body of a function declaration to the walker if
    and only if the declaration is a test entry point: its name is "Test"
    or "Benchmark" followed by at least one more character, and one of its
    parameters is a pointer to [testing.T] or [testing.B].  For an entry
    point the effect of [run] on the declaration is that of
    [checkDeferInTestFunc] on its body; for any other declaration (a name
    match without qualifying parameter included) nothing is reported and
    the pass is left as it was (the traversal failing only on a tree with a
    literal that lacks its signature or body). *)
Theorem entry_point_rule (d : FuncDecl) (pass : Pass) :
  (TestEntryPoint d ->
   run_func (Some (NDecl (DFuncDecl d))) pass
   = (checkDeferInTestFunc (FuncDecl_Body d) ;; ret false) pass
   /\ walk_Decl run_func (DFuncDecl d) pass
      = checkDeferInTestFunc (FuncDecl_Body d) pass)
  /\ (~ TestEntryPoint d ->
      run_func (Some (NDecl (DFuncDecl d))) pass = Ok (true, pass)
      /\ walk_Decl run_func (DFuncDecl d) pass
         = if complete_FuncDecl d then Ok (tt, pass) else Panic).
Proof.
  split; intros H.
  - apply entry_test_spec in H. split.
    + simpl. rewrite H. reflexivity.
    + apply walk_FuncDecl_taken. exact H.
  - split.
    + apply entry_test_not_spec in H. simpl. rewrite H. reflexivity.
    + apply walk_FuncDecl_not_entry. exact H.
Qed.

Lemma entry_point_rule_witness :
  let d := mkFuncDecl None (mkIdent "TestFoo")
                      (Fixtures.signature [Fixtures.param "t" Fixtures.ptrTestingT])
                      (Some (mkBlockStmt [Fixtures.deferCleanup 7])) in
  let d' := mkFuncDecl None (mkIdent "TestFoo")
                       (Fixtures.signature [Fixtures.param "s" (Fixtures.ident "string")])
                       (Some (mkBlockStmt [Fixtures.deferCleanup 7])) in
  walk_Decl run_func (DFuncDecl d) (mkPass [] [])
  = Ok (tt, mkPass [] [mkDiagnostic 7 deferMessage])
  /\ walk_Decl run_func (DFuncDecl d') (mkPass [] []) = Ok (tt, mkPass [] []).
Proof.
  intros d d'. split.
  - refine (eq_trans (proj2 (proj1 (entry_point_rule d (mkPass [] [])) _)) _).
    + apply entry_test_spec. reflexivity.
    + reflexivity.
  - refine (eq_trans (proj2 (proj2 (entry_point_rule d' (mkPass [] [])) _)) _).
    + apply entry_test_not_spec. reflexivity.
    + reflexivity.
Defined.

(** C5.  A function declaration whose name does not start with "Test" or
    "Benchmark" yields no finding, whatever its signature and body hold:
    walking it with the function of [run] leaves the pass as it was. *)
Theorem unprefixed_declaration_is_silent (d : FuncDecl) (pass : Pass) :
  ~ HasRecognizedPrefix (Ident_Name (FuncDecl_Name d)) ->
  walk_Decl run_func (DFuncDecl d) pass
  = if complete_FuncDecl d then Ok (tt, pass) else Panic.
Proof.
  intros Hname. apply walk_FuncDecl_not_entry.
  intros [Hq _]. apply Hname. apply NameQualifies_prefix. exact Hq.
Qed.

Lemma unprefixed_declaration_is_silent_witness :
  walk_Decl run_func
            (Fixtures.funcDecl "Helper" [Fixtures.param "t" Fixtures.ptrTestingT]
                               [Fixtures.deferCleanup 5])
            (mkPass [] [])
  = Ok (tt, mkPass [] []).
Proof.
  refine (unprefixed_declaration_is_silent _ (mkPass [] []) _).
  intros (rest & [H | H]); simpl in H; discriminate H.
Defined.

(** C7.  A function named exactly "Test" or "Benchmark" is never a test
    entry point, whatever its signature: [isTestFunction] rejects it, and
    [run] reports nothing from it, even with a [*testing.T] parameter and a
    deferred statement in its body. *)
Theorem bare_prefix_is_no_entry_point (d : FuncDecl) (pass : Pass) :
  Ident_Name (FuncDecl_Name d) = "Test"
  \/ Ident_Name (FuncDecl_Name d) = "Benchmark" ->
  isTestFunction d = false
  /\ ~ TestEntryPoint d
  /\ walk_Decl run_func (DFuncDecl d) pass
     = if complete_FuncDecl d then Ok (tt, pass) else Panic.
Proof.
  intros Hname.
  assert (Hfalse : isTestFunction d = false).
  { unfold isTestFunction. destruct Hname as [-> | ->]; reflexivity. }
  assert (Hnot : ~ TestEntryPoint d).
  { intros [Hq _]. apply isTestFunction_spec in Hq. congruence. }
  split; [exact Hfalse|]. split; [exact Hnot|].
  apply walk_FuncDecl_not_entry. exact Hnot.
Qed.

Lemma bare_prefix_is_no_entry_point_witness :
  let d := mkFuncDecl None (mkIdent "Test")
                      (Fixtures.signature [Fixtures.param "t" Fixtures.ptrTestingT])
                      (Some (mkBlockStmt [Fixtures.deferCleanup 322])) in
  hasTestingTParam d = true
  /\ isTestFunction d = false
  /\ walk_Decl run_func (DFuncDecl d) (mkPass [] []) = Ok (tt, mkPass [] []).
Proof.
  intros d. split; [reflexivity|].
  pose proof (bare_prefix_is_no_entry_point d (mkPass [] []) (or_introl eq_refl))
    as (Hname & _ & Hwalk).
  split; [exact Hname | exact Hwalk].
Defined.

(** *** The parameter test *)

Lemma hasFuncLitTestingTParam_spec (lit : FuncLit) :
  hasFuncLitTestingTParam lit = true <-> NestedTestContext lit.
Proof.
  rewrite hasFuncLitTestingTParam_decides. apply nestedTestContextb_spec.
Qed.

(** C10.  The test-context parameter check reads the type expression
    only.  A function literal, or a function declaration, passes it exactly
    when one of its parameters has a type of the form [*pkg.sel] with [pkg]
    an identifier spelled "testing" and [sel] spelled "T" or "B".  When
    every parameter is a non-pointer [testing.T] or a pointer through a
    renamed import, the check fails, for literals and declarations alike. *)
Theorem parameter_check_is_syntactic :
  (forall lit, hasFuncLitTestingTParam lit = true <-> NestedTestContext lit)
  /\ (forall d,
        hasTestingTParam d = true
        <-> SignatureQualifies (FuncType_Params (FuncDecl_Type d)))
  /\ (forall params tparams results body recv name,
        OnlyLookalikes params ->
        let ft := mkFuncType tparams (Some (mkFieldList params)) results in
        hasFuncLitTestingTParam (mkFuncLit (Some ft) body) = false
        /\ hasTestingTParam (mkFuncDecl recv name ft body) = false).
Proof.
  split; [|split].
  - apply hasFuncLitTestingTParam_spec.
  - intros d. rewrite hasTestingTParam_decides.
    apply signatureQualifiesb_spec.
  - intros params tparams results body recv name Hlook ft.
    assert (Hnot : signatureQualifiesb (Some (mkFieldList params)) = false).
    { destruct (signatureQualifiesb (Some (mkFieldList params))) eqn:Hq;
        [|reflexivity].
      apply signatureQualifiesb_spec in Hq.
      destruct Hq as (l & field & ty & Hl & Hin & Hty & pkg & sel & -> & Hpkg & _).
      inversion Hl; subst l. simpl in Hin.
      destruct (Hlook field _ Hin Hty) as [(pkg' & sel' & Heq) | (pkg' & sel' & Heq & Hne)].
      - discriminate Heq.
      - inversion Heq; subst. contradiction. }
    split.
    + rewrite hasFuncLitTestingTParam_decides. exact Hnot.
    + rewrite hasTestingTParam_decides. exact Hnot.
Qed.

Lemma parameter_check_is_syntactic_witness :
  let params :=
    [Fixtures.param "t" (Fixtures.qualified "testing" "T");
     Fixtures.param "u" (StarExpr (Fixtures.qualified "tt" "T"))] in
  hasFuncLitTestingTParam (mkFuncLit (Some (Fixtures.signature params)) None) = false
  /\ hasTestingTParam
       (mkFuncDecl None (mkIdent "TestFoo") (Fixtures.signature params) None)
     = false.
Proof.
  intros params.
  refine (proj2 (proj2 parameter_check_is_syntactic)
                params None None None None (mkIdent "TestFoo") _).
  intros field ty [<- | [<- | []]] Hty; inversion Hty; subst ty.
  - left. exists (mkIdent "testing"), (mkIdent "T"). reflexivity.
  - right. exists (mkIdent "tt"), (mkIdent "T").
    split; [reflexivity | simpl; discriminate].
Defined.

(** *** The message *)

(** C9.  Every finding that [run] adds to the pass carries one and the
    same message, the fixed string of the analyzer: whatever the files
    hold, the diagnostics after a run are those before it followed by
    findings that differ in their position only. *)
Theorem every_finding_has_the_fixed_message (pass pass' : Pass) :
  run pass = Ok (tt, pass') ->
  exists ps : list Pos,
    Pass_Diagnostics pass'
    = (Pass_Diagnostics pass
       ++ map (fun p =>
                 mkDiagnostic p
                   "use t.Cleanup() instead of defer in test functions to ensure cleanup runs even after t.Fatal/t.FailNow")
              ps)%list.
Proof.
  intros Hrun. destruct (run_only_findings _ Hrun) as [ps ->].
  exists ps. reflexivity.
Qed.

Lemma every_finding_has_the_fixed_message_witness :
  let decls :=
    [Fixtures.funcDecl "TestMixedDeferAndCleanup"
       [Fixtures.param "t" Fixtures.ptrTestingT]
       [Fixtures.deferCleanup 284;
        Fixtures.callStmt "t" "Cleanup" [Fixtures.ident "cleanup"];
        DeferStmt 286 (mkCallExpr (Fixtures.funcLit [] []) [])]] in
  exists ps : list Pos,
    Pass_Diagnostics (mkPass [mkFile (mkIdent "a") decls] (findings [284%Z; 286%Z]))
    = ([] ++ map (fun p =>
                    mkDiagnostic p
                      "use t.Cleanup() instead of defer in test functions to ensure cleanup runs even after t.Fatal/t.FailNow")
                 ps)%list.
Proof.
  intros decls.
  exact (@every_finding_has_the_fixed_message
           (Fixtures.package decls)
           (mkPass [mkFile (mkIdent "a") decls] (findings [284%Z; 286%Z]))
           eq_refl).
Defined.

(** *** Absent parameter lists and bodies *)

(** C8.  An absent parameter list is taken as "no parameters": both
    signature predicates answer false on it, and so does the literal's
    predicate on an absent signature.  An absent body is not taken as an
    empty body: [run] passes the nil body of a test entry point declared
    without one ([func TestFoo(t *testing.T)]) to [checkDeferInTestFunc],
    where [ast.Inspect] dereferences it, and the run fails; the same
    happens at a qualifying literal without body. *)
Theorem absent_body_is_dereferenced :
  (forall tparams results body,
     hasFuncLitTestingTParam (mkFuncLit None body) = false
     /\ hasFuncLitTestingTParam
          (mkFuncLit (Some (mkFuncType tparams None results)) body) = false)
  /\ (forall recv name tparams results body,
        hasTestingTParam
          (mkFuncDecl recv name (mkFuncType tparams None results) body) = false)
  /\ run (Fixtures.package
            [Fixtures.funcDeclNoBody "TestFoo"
                                     [Fixtures.param "t" Fixtures.ptrTestingT]])
     = Panic
  /\ (forall pass, checkDeferInTestFunc None pass = Panic)
  /\ (forall pass,
        check_Expr
          (EFuncLit (mkFuncLit
                       (Some (Fixtures.signature
                                [Fixtures.param "t" Fixtures.ptrTestingT]))
                       None))
          pass
        = Panic).
Proof.
  repeat split; reflexivity.
Qed.

(** *** Declarations that are not entry points *)

(** C1 fails on the code: in [func helper() { fn := func(t *testing.T)
    { defer cleanup() } }] the literal carries a [*testing.T] parameter and
    holds a deferred statement, the declaration is no test entry point,
    and [run] reports nothing. *)
Lemma literal_in_helper_is_not_reported :
  let lit :=
    mkFuncLit (Some (Fixtures.signature [Fixtures.param "t" Fixtures.ptrTestingT]))
              (Some (mkBlockStmt [Fixtures.deferCleanup 3])) in
  let d :=
    mkFuncDecl None (mkIdent "helper") (Fixtures.signature [])
               (Some (mkBlockStmt
                        [AssignStmt [Fixtures.ident "fn"] 47 [EFuncLit lit]])) in
  hasFuncLitTestingTParam lit = true
  /\ isTestFunction d = false
  /\ reachableDefers_FuncLit lit = [3%Z]
  /\ run (Fixtures.package [DFuncDecl d]) = Fixtures.reported [DFuncDecl d] [].
Proof.
  repeat split; reflexivity.
Qed.

(** C1, amended.  A function declaration that is not a recognized test
    entry point contributes no finding, whatever its body holds, function
    literals with a test-context parameter and deferred statements
    included: among the declarations of a file it can be dropped without
    changing what [run] does.  The context-propagation rule is evaluated
    only below a recognized test entry point. *)
Theorem non_entry_declaration_contributes_nothing
        (before after : list Decl) (d : FuncDecl) (pass : Pass) :
  ~ TestEntryPoint d ->
  complete_FuncDecl d = true ->
  walkList (walk_Decl run_func) (before ++ DFuncDecl d :: after) pass
  = walkList (walk_Decl run_func) (before ++ after) pass.
Proof.
  intros Hnot Hcomplete.
  rewrite (walkList_app (walk_Decl run_func) before (DFuncDecl d :: after)).
  rewrite (walkList_app (walk_Decl run_func) before after).
  unfold bind.
  destruct (walkList (walk_Decl run_func) before pass) as [[[] pass1]|];
    [|reflexivity].
  cbn [walkList]. unfold bind.
  rewrite (walk_FuncDecl_not_entry pass1 Hnot), Hcomplete.
  reflexivity.
Qed.

Lemma non_entry_declaration_contributes_nothing_witness :
  let lit :=
    Fixtures.funcLit [Fixtures.param "t" Fixtures.ptrTestingT]
                     [Fixtures.deferCleanup 3] in
  let d :=
    mkFuncDecl None (mkIdent "helper") (Fixtures.signature [])
               (Some (mkBlockStmt [AssignStmt [Fixtures.ident "fn"] 47 [lit]])) in
  let testA :=
    Fixtures.funcDecl "TestA" [Fixtures.param "t" Fixtures.ptrTestingT]
                      [Fixtures.deferCleanup 9] in
  walkList (walk_Decl run_func) ([testA] ++ DFuncDecl d :: [testA]) (mkPass [] [])
  = Ok (tt, mkPass [] (findings [9%Z; 9%Z])).
Proof.
  intros lit d testA.
  refine (eq_trans
            (@non_entry_declaration_contributes_nothing
               [testA] [testA] d (mkPass [] []) _ eq_refl) _).
  - apply entry_test_not_spec. reflexivity.
  - reflexivity.
Defined.

(** *** The walker *)

(** C4.  On the body of a test context, the walker adds one finding per
    deferred statement that is reachable through transparent constructs and
    qualifying literals, at that statement's position and in source order,
    and nothing else; so the number of findings is the number of those
    statements.  Deferred statements that are reachable only through a
    literal without test-context parameter are not among them.  The body is
    one of the data model: each literal in it has a signature and a body. *)
Theorem findings_are_the_reachable_defers (body : BlockStmt) (pass : Pass) :
  complete_BlockStmt body = true ->
  exists pass',
    checkDeferInTestFunc (Some body) pass = Ok (tt, pass')
    /\ Pass_Files pass' = Pass_Files pass
    /\ Pass_Diagnostics pass'
       = (Pass_Diagnostics pass ++ findings (reachableDefers_BlockStmt body))%list
    /\ List.length (Pass_Diagnostics pass')
       = (List.length (Pass_Diagnostics pass)
          + List.length (reachableDefers_BlockStmt body))%nat.
Proof.
  intros Hcomplete.
  destruct check_reaches as (_ & _ & _ & _ & _ & _ & _ & Hblock & _).
  exists (mkPass (Pass_Files pass)
                 (Pass_Diagnostics pass ++ findings (reachableDefers_BlockStmt body))).
  split; [|split; [|split]]; simpl.
  - apply (Hblock body Hcomplete pass).
  - reflexivity.
  - reflexivity.
  - unfold findings. rewrite length_app, length_map. reflexivity.
Qed.

Lemma findings_are_the_reachable_defers_witness :
  let body :=
    mkBlockStmt
      [Fixtures.deferCleanup 1;
       IfStmt None Fixtures.someCondition
              (mkBlockStmt [Fixtures.deferCleanup 2]) None;
       ForStmt None None None (mkBlockStmt [Fixtures.deferCleanup 3]);
       SwitchStmt None None
                  (mkBlockStmt [CaseClause [] [Fixtures.deferCleanup 4]]);
       ExprStmt (Fixtures.funcLit [] [Fixtures.deferCleanup 5]);
       Fixtures.deferCleanup 6] in
  reachableDefers_BlockStmt body = [1; 2; 3; 4; 6]%Z
  /\ exists pass',
       checkDeferInTestFunc (Some body) (mkPass [] []) = Ok (tt, pass')
       /\ Pass_Files pass' = []
       /\ Pass_Diagnostics pass' = findings [1; 2; 3; 4; 6]%Z
       /\ List.length (Pass_Diagnostics pass') = 5%nat.
Proof.
  intros body. split; [reflexivity|].
  exact (@findings_are_the_reachable_defers body (mkPass [] []) eq_refl).
Defined.

(** C6.  A test entry point whose body is one call in the manner of
    [t.Run("x", func(t *testing.T) { defer cleanup() })], the literal
    carrying a test-context parameter and holding the only deferred
    statement, yields exactly one finding, at the position of that inner
    statement: the walker starts afresh on the body of the qualifying
    literal. *)
Theorem subtest_defer_is_the_one_finding
        (d : FuncDecl) (recv method fn : string) (label : BasicLit)
        (lit : FuncLit) (p : Pos) (pkg : Ident) (diags : list Diagnostic) :
  TestEntryPoint d ->
  NestedTestContext lit ->
  FuncLit_Body lit = Some (mkBlockStmt [DeferStmt p (Fixtures.call0 fn)]) ->
  FuncDecl_Body d
  = Some (mkBlockStmt
            [Fixtures.callStmt recv method [EBasicLit label; EFuncLit lit]]) ->
  let files := [mkFile pkg [DFuncDecl d]] in
  run (mkPass files diags)
  = Ok (tt, mkPass files (diags ++ [mkDiagnostic p deferMessage])).
Proof.
  intros Hentry Hlit Hbody Hd files.
  rewrite run_decls. simpl. unfold bind at 1 2.
  rewrite walk_FuncDecl_taken by (apply entry_test_spec; exact Hentry).
  rewrite Hd. simpl.
  apply hasFuncLitTestingTParam_spec in Hlit.
  destruct lit as [ty body]. simpl in Hbody. subst body.
  unfold bind, ret. simpl. rewrite Hlit. reflexivity.
Qed.

Lemma subtest_defer_is_the_one_finding_witness :
  let lit :=
    mkFuncLit (Some (Fixtures.signature [Fixtures.param "t" Fixtures.ptrTestingT]))
              (Some (mkBlockStmt [DeferStmt 56 (Fixtures.call0 "cleanup")])) in
  let d :=
    mkFuncDecl None (mkIdent "TestFoo")
               (Fixtures.signature [Fixtures.param "t" Fixtures.ptrTestingT])
               (Some (mkBlockStmt
                        [Fixtures.callStmt "t" "Run"
                           [EBasicLit (mkBasicLit 9 "x"); EFuncLit lit]])) in
  run (mkPass [mkFile (mkIdent "a") [DFuncDecl d]] [])
  = Ok (tt, mkPass [mkFile (mkIdent "a") [DFuncDecl d]]
                   [mkDiagnostic 56 deferMessage]).
Proof.
  intros lit d.
  refine (@subtest_defer_is_the_one_finding
            d "t" "Run" "cleanup" (mkBasicLit 9 "x") lit 56 (mkIdent "a") []
            _ _ eq_refl eq_refl).
  - apply entry_test_spec. reflexivity.
  - apply hasFuncLitTestingTParam_spec. reflexivity.
Defined.

(** *** Literals that are not test contexts *)

(** C2.  A function literal that [hasFuncLitTestingTParam] rejects is
    never entered.  At such a literal the function given to [ast.Inspect]
    reports nothing and answers false, so the traversal runs none of what it
    would do on the literal's children, and walking the literal leaves the
    pass untouched whatever its body holds.  Over a whole test-context body:
    two bodies that are the same outside the bodies of rejected literals
    give the same outcome, so nothing inside a rejected literal, a deferred
    statement or a further qualifying literal at any depth, has any
    effect. *)
Theorem rejected_literal_is_never_entered :
  (forall lit pass,
     hasFuncLitTestingTParam lit = false ->
     checkDeferInTestFunc_func (Some (NExpr (EFuncLit lit))) pass = Ok (false, pass)
     /\ (forall children : M unit,
           visit checkDeferInTestFunc_func (NExpr (EFuncLit lit)) children pass
           = Ok (tt, pass))
     /\ check_Expr (EFuncLit lit) pass = Ok (tt, pass))
  /\ (forall body1 body2 pass,
        eraseSkipped_BlockStmt body1 = eraseSkipped_BlockStmt body2 ->
        checkDeferInTestFunc (Some body1) pass
        = checkDeferInTestFunc (Some body2) pass).
Proof.
  split.
  - intros lit pass Hq. split; [|split].
    + simpl. rewrite Hq. reflexivity.
    + intros children. unfold visit, bind. simpl. rewrite Hq. reflexivity.
    + simpl. destruct lit as [ty body].
      simpl. rewrite Hq. reflexivity.
  - intros body1 body2 pass Herase.
    destruct check_eraseSkipped as (_ & _ & _ & _ & _ & _ & _ & Hblock & _).
    simpl. rewrite <- (Hblock body1 pass), <- (Hblock body2 pass), Herase.
    reflexivity.
Qed.

Lemma rejected_literal_is_never_entered_witness :
  let nested :=
    Fixtures.funcLit [Fixtures.param "t" Fixtures.ptrTestingT]
                     [Fixtures.deferCleanup 8] in
  let body1 :=
    mkBlockStmt
      [Fixtures.deferCleanup 1;
       ExprStmt (Fixtures.funcLit []
                   [Fixtures.deferCleanup 7;
                    IfStmt None Fixtures.someCondition
                           (mkBlockStmt [ExprStmt nested]) None])] in
  let body2 :=
    mkBlockStmt [Fixtures.deferCleanup 1; ExprStmt (Fixtures.funcLit [] [])] in
  checkDeferInTestFunc (Some body1) (mkPass [] [])
  = checkDeferInTestFunc (Some body2) (mkPass [] []).
Proof.
  intros nested body1 body2.
  exact (proj2 rejected_literal_is_never_entered body1 body2 (mkPass [] []) eq_refl).
Defined.

(** * The whole run *)

(** ** The walker on every tree *)

Lemma emitIf_bind (m1 m2 : M unit) (b1 b2 : bool) (l1 l2 : list Pos) :
  eqM m1 (emitIf b1 l1) -> eqM m2 (emitIf b2 l2) ->
  eqM (m1 ;; m2) (emitIf (b1 && b2) (l1 ++ l2)).
Proof.
  intros H1 H2. destruct b1; simpl.
  - destruct b2; simpl.
    + apply emit_bind; assumption.
    + intros pass. unfold bind. rewrite H1. unfold emitIf at 1. unfold emit.
      rewrite H2. reflexivity.
  - intros pass. unfold bind. rewrite H1. reflexivity.
Qed.

Lemma emitIf_ret : eqM (ret tt) (emitIf true []).
Proof. apply emit_nil. Qed.

Lemma walkList_emitIf {A} (w : A -> M unit) (c : A -> bool) (r : A -> list Pos)
      (l : list A) :
  list_all (fun a => eqM (w a) (emitIf (c a) (r a))) l ->
  eqM (walkList w l) (emitIf (forallb c l) (flat_map r l)).
Proof.
  induction 1 as [|a Ha l _ IH]; simpl.
  - apply emitIf_ret.
  - apply emitIf_bind; assumption.
Qed.

Lemma walkList_emitIf_all {A} (w : A -> M unit) (c : A -> bool) (r : A -> list Pos)
      (l : list A) :
  (forall a, eqM (w a) (emitIf (c a) (r a))) ->
  eqM (walkList w l) (emitIf (forallb c l) (flat_map r l)).
Proof.
  intros Hw. induction l as [|a l IH]; simpl.
  - apply emitIf_ret.
  - apply emitIf_bind; [apply Hw | exact IH].
Qed.

Lemma walkOpt_emitIf {A} (w : A -> M unit) (c : A -> bool) (r : A -> list Pos)
      (o : option A) :
  option_all (fun a => eqM (w a) (emitIf (c a) (r a))) o ->
  eqM (walkOpt w o) (emitIf (optb c o) (optl r o)).
Proof.
  destruct 1 as [a Ha|]; simpl; [exact Ha | apply emitIf_ret].
Qed.

Lemma guard_emitIf (b : bool) : eqM (guard b) (emitIf b []).
Proof. destruct b; [apply emit_nil | apply eqM_refl]. Qed.

Ltac emitIf_step :=
  first
    [ assumption
    | apply emitIf_ret
    | apply emitIf_bind
    | apply walkList_emitIf; assumption
    | apply walkOpt_emitIf; assumption ].

(** The walker, on any tree: it fails when a test context on its way has
    no body, and otherwise reports the reachable deferred statements. *)
Lemma check_exact :
  (forall e, eqM (check_Expr e)
                 (emitIf (bodied_Expr e) (reachableDefers_Expr e))) /\
  (forall lit, eqM (check_FuncLit lit)
                   (emitIf (bodied_FuncLit lit) (reachableDefers_FuncLit lit))) /\
  (forall call, eqM (check_CallExpr call)
                    (emitIf (bodied_CallExpr call) (reachableDefers_CallExpr call))) /\
  (forall ft, eqM (check_FuncType ft)
                  (emitIf (bodied_FuncType ft) (reachableDefers_FuncType ft))) /\
  (forall l, eqM (check_FieldList l)
                 (emitIf (bodied_FieldList l) (reachableDefers_FieldList l))) /\
  (forall field, eqM (check_Field field)
                     (emitIf (bodied_Field field) (reachableDefers_Field field))) /\
  (forall s, eqM (check_Stmt s)
                 (emitIf (bodied_Stmt s) (reachableDefers_Stmt s))) /\
  (forall block, eqM (check_BlockStmt block)
                     (emitIf (bodied_BlockStmt block) (reachableDefers_BlockStmt block))) /\
  (forall d, eqM (check_GenDecl d)
                 (emitIf (bodied_GenDecl d) (reachableDefers_GenDecl d))) /\
  (forall s, eqM (check_Spec s)
                 (emitIf (bodied_Spec s) (reachableDefers_Spec s))).
Proof.
  apply ast_mutind; intros; simpl;
    rewrite <- ?andb_assoc;
    try solve [repeat emitIf_step].
  - (* FuncLit *)
    rewrite hasFuncLitTestingTParam_decides.
    destruct (nestedTestContextb (mkFuncLit Type_ Body)); [|apply emitIf_ret].
    destruct H0 as [body Hbody|]; simpl; [exact Hbody | apply eqM_refl].
  - (* DeferStmt *)
    apply (@emitIf_bind _ _ true _ [Defer]); [apply Reportf_emit | assumption].
Qed.

(** ** Complete trees are bodied *)

Lemma forallb_impl_all {A} (c b : A -> bool) (l : list A) :
  list_all (fun a => c a = true -> b a = true) l ->
  forallb c l = true -> forallb b l = true.
Proof.
  induction 1 as [|a Ha l _ IH]; simpl; intros Hc; [reflexivity|].
  apply andb_true_iff in Hc. destruct Hc as [Hca Hcl].
  rewrite (Ha Hca), (IH Hcl). reflexivity.
Qed.

Lemma optb_impl_all {A} (c b : A -> bool) (o : option A) :
  option_all (fun a => c a = true -> b a = true) o ->
  optb c o = true -> optb b o = true.
Proof. destruct 1 as [a Ha|]; simpl; [exact Ha | reflexivity]. Qed.

Ltac bodied_step :=
  first
    [ reflexivity
    | match goal with
      | H : ?c = true -> ?b = true |- ?b = true => apply H; assumption
      end
    | eapply forallb_impl_all; eassumption
    | eapply optb_impl_all; eassumption
    | apply andb_true_iff; split ].

Lemma complete_bodied :
  (forall e, complete_Expr e = true -> bodied_Expr e = true) /\
  (forall lit, complete_FuncLit lit = true -> bodied_FuncLit lit = true) /\
  (forall call, complete_CallExpr call = true -> bodied_CallExpr call = true) /\
  (forall ft, complete_FuncType ft = true -> bodied_FuncType ft = true) /\
  (forall l, complete_FieldList l = true -> bodied_FieldList l = true) /\
  (forall field, complete_Field field = true -> bodied_Field field = true) /\
  (forall s, complete_Stmt s = true -> bodied_Stmt s = true) /\
  (forall block, complete_BlockStmt block = true -> bodied_BlockStmt block = true) /\
  (forall d, complete_GenDecl d = true -> bodied_GenDecl d = true) /\
  (forall s, complete_Spec s = true -> bodied_Spec s = true).
Proof.
  apply ast_mutind; intros; simpl in *; split_complete;
    try solve [repeat bodied_step].
  (* FuncLit *)
  destruct (nestedTestContextb (mkFuncLit Type_ Body)); [|reflexivity].
  destruct Type_ as [ft|]; [|discriminate].
  destruct Body as [body|]; [|discriminate].
  apply andb_true_iff in H1. destruct H1 as [_ Hbody].
  inversion H0 as [body' IH|]; subst. apply IH. exact Hbody.
Qed.

(** ** Reported positions among the deferred statements *)

Lemma Subseq_refl {A} (l : list A) : Subseq l l.
Proof. induction l; constructor; assumption. Qed.

Lemma Subseq_nil_l {A} (l : list A) : Subseq [] l.
Proof. induction l; constructor; assumption. Qed.

Lemma Subseq_app {A} (p1 q1 p2 q2 : list A) :
  Subseq p1 q1 -> Subseq p2 q2 -> Subseq (p1 ++ p2) (q1 ++ q2).
Proof.
  intros H1 H2. induction H1; simpl; [exact H2 | |]; constructor; assumption.
Qed.

Lemma Subseq_app_skip {A} (p q0 q : list A) : Subseq p q -> Subseq p (q0 ++ q).
Proof. intros H. apply (@Subseq_app A [] q0 p q); [apply Subseq_nil_l | exact H]. Qed.

Lemma Subseq_In {A} (ps qs : list A) (x : A) : Subseq ps qs -> In x ps -> In x qs.
Proof.
  induction 1; simpl; intros Hin.
  - exact Hin.
  - right. auto.
  - destruct Hin as [-> | Hin]; [left; reflexivity | right; auto].
Qed.

Lemma Subseq_NoDup {A} (ps qs : list A) : Subseq ps qs -> NoDup qs -> NoDup ps.
Proof.
  induction 1; intros Hnd.
  - constructor.
  - inversion Hnd; subst. auto.
  - inversion Hnd; subst. constructor; [|auto].
    intros Hin. apply H2. eapply Subseq_In; eassumption.
Qed.

Lemma Subseq_nil_r {A} (ps : list A) : Subseq ps [] -> ps = [].
Proof. intros H. inversion H. reflexivity. Qed.

Lemma Subseq_flat_map_all {A B} (r a : A -> list B) (l : list A) :
  list_all (fun x => Subseq (r x) (a x)) l ->
  Subseq (flat_map r l) (flat_map a l).
Proof.
  induction 1 as [|x Hx l _ IH]; simpl; [constructor | apply Subseq_app; assumption].
Qed.

Lemma Subseq_flat_map {A B} (r a : A -> list B) (l : list A) :
  (forall x, Subseq (r x) (a x)) -> Subseq (flat_map r l) (flat_map a l).
Proof.
  intros H. induction l as [|x l IH]; simpl; [constructor | apply Subseq_app; auto].
Qed.

Lemma Subseq_optl {A B} (r a : A -> list B) (o : option A) :
  option_all (fun x => Subseq (r x) (a x)) o -> Subseq (optl r o) (optl a o).
Proof. destruct 1 as [x Hx|]; simpl; [exact Hx | constructor]. Qed.

Ltac subseq_step :=
  first
    [ assumption
    | apply Subseq_nil
    | apply Subseq_app
    | apply Subseq_flat_map_all; assumption
    | apply Subseq_optl; assumption ].

Lemma reachableDefers_allDefers :
  (forall e, Subseq (reachableDefers_Expr e) (allDefers_Expr e)) /\
  (forall lit, Subseq (reachableDefers_FuncLit lit) (allDefers_FuncLit lit)) /\
  (forall call, Subseq (reachableDefers_CallExpr call) (allDefers_CallExpr call)) /\
  (forall ft, Subseq (reachableDefers_FuncType ft) (allDefers_FuncType ft)) /\
  (forall l, Subseq (reachableDefers_FieldList l) (allDefers_FieldList l)) /\
  (forall field, Subseq (reachableDefers_Field field) (allDefers_Field field)) /\
  (forall s, Subseq (reachableDefers_Stmt s) (allDefers_Stmt s)) /\
  (forall block, Subseq (reachableDefers_BlockStmt block) (allDefers_BlockStmt block)) /\
  (forall d, Subseq (reachableDefers_GenDecl d) (allDefers_GenDecl d)) /\
  (forall s, Subseq (reachableDefers_Spec s) (allDefers_Spec s)).
Proof.
  apply ast_mutind; intros; simpl; try solve [repeat subseq_step].
  - (* FuncLit *)
    destruct (nestedTestContextb (mkFuncLit Type_ Body)); [|apply Subseq_nil_l].
    apply Subseq_app_skip. apply Subseq_optl. assumption.
  - (* DeferStmt *)
    apply Subseq_keep. assumption.
Qed.

Lemma declDefers_allDefers (d : Decl) : Subseq (declDefers d) (allDefers_Decl d).
Proof.
  destruct d as [|g|fd]; simpl; try apply Subseq_nil_l.
  destruct (entryPointb fd); [|apply Subseq_nil_l].
  unfold allDefers_FuncDecl. do 2 apply Subseq_app_skip.
  destruct (FuncDecl_Body fd) as [body|]; simpl;
    [apply reachableDefers_allDefers | constructor].
Qed.

Lemma fileDefers_allDefers (file : File) :
  Subseq (fileDefers file) (allDefers_File file).
Proof. apply Subseq_flat_map. apply declDefers_allDefers. Qed.

(** ** The account of a run *)

Lemma entry_test_entryPointb (d : FuncDecl) :
  negb (isTestFunction d) || negb (hasTestingTParam d) = negb (entryPointb d).
Proof. unfold entryPointb. destruct (isTestFunction d), (hasTestingTParam d); reflexivity. Qed.

Lemma walk_Decl_exact (d : Decl) :
  eqM (walk_Decl run_func d) (emitIf (declOk d) (declDefers d)).
Proof.
  destruct d as [|g|fd]; simpl.
  - eapply eqM_trans; [apply walk_Decl_BadDecl | apply emitIf_ret].
  - eapply eqM_trans; [apply run_func_walk | apply guard_emitIf].
  - pose proof (entry_test_entryPointb fd) as Htest.
    destruct (entryPointb fd); simpl in Htest.
    + eapply eqM_trans; [apply walk_FuncDecl_taken; exact Htest|].
      destruct (FuncDecl_Body fd) as [body|]; simpl;
        [apply check_exact | apply eqM_refl].
    + eapply eqM_trans; [apply walk_FuncDecl_skipped; exact Htest|].
      apply guard_emitIf.
Qed.

Lemma run_exact (files : list File) (diags : list Diagnostic) :
  run (mkPass files diags)
  = if forallb fileOk files
    then Ok (tt, mkPass files (diags ++ findings (flat_map fileDefers files)))
    else Panic.
Proof.
  rewrite run_decls. simpl Pass_Files.
  rewrite (@walkList_emitIf_all _ _ fileOk fileDefers).
  - destruct (forallb fileOk files); reflexivity.
  - intros file. apply walkList_emitIf_all. apply walk_Decl_exact.
Qed.

Lemma runnableDecl_declOk (d : Decl) : runnableDecl d = true -> declOk d = true.
Proof.
  unfold runnableDecl. intros H. apply andb_true_iff in H. destruct H as [Hc Hb].
  destruct d as [|g|fd]; simpl in *; try assumption.
  destruct (entryPointb fd); [|exact Hc].
  destruct (FuncDecl_Body fd) as [body|] eqn:Hbody; [|discriminate].
  unfold complete_FuncDecl in Hc. rewrite Hbody in Hc.
  apply andb_true_iff in Hc. destruct Hc as [_ Hc]. simpl in Hc.
  apply complete_bodied. exact Hc.
Qed.

Lemma runnableFile_fileOk (file : File) : runnableFile file = true -> fileOk file = true.
Proof.
  unfold runnableFile, fileOk. intros H.
  apply forallb_forall. intros d Hin.
  apply runnableDecl_declOk. eapply forallb_forall in H; eassumption.
Qed.

(** * Further properties of the analyzer *)

(** X1.  The two signature predicates are one rule: on any signature,
    [hasTestingTParam] for a declaration and [hasFuncLitTestingTParam] for
    a literal carrying that signature give the same answer, empty and
    absent parameter lists included (the length test of
    [hasTestingTParam] changes nothing). *)
Theorem signature_predicates_agree (d : FuncDecl) (body : option BlockStmt) :
  hasTestingTParam d
  = hasFuncLitTestingTParam (mkFuncLit (Some (FuncDecl_Type d)) body).
Proof.
  rewrite hasTestingTParam_decides, hasFuncLitTestingTParam_decides.
  reflexivity.
Qed.

(** X2.  The account of a run.  [run] fails exactly when some declaration
    of some file is not fit for it: a declaration taken for a test without
    body or with a bodiless test context on the walker's way, or any other
    declaration holding a literal without signature or body.  Otherwise it
    returns the pass with its files untouched and its diagnostics followed
    by one finding per deferred statement reachable in the bodies of the
    declarations taken for tests, file by file, declaration by declaration,
    in source order. *)
Theorem run_account (files : list File) (diags : list Diagnostic) :
  run (mkPass files diags)
  = if forallb fileOk files
    then Ok (tt, mkPass files (diags ++ findings (flat_map fileDefers files)))
    else Panic.
Proof. apply run_exact. Qed.

(** X3.  A run does not depend on the diagnostics already in the pass: it
    fails or succeeds as on the empty pass and appends the same findings.
    Run twice, it appends them twice. *)
Theorem run_is_stateless (files : list File) (diags : list Diagnostic) :
  run (mkPass files diags)
  = match run (mkPass files []) with
    | Ok (_, fresh) => Ok (tt, mkPass files (diags ++ Pass_Diagnostics fresh))
    | Panic => Panic
    end
  /\ (run ;; run) (mkPass files diags)
     = match run (mkPass files []) with
       | Ok (_, fresh) =>
         Ok (tt, mkPass files
                        ((diags ++ Pass_Diagnostics fresh) ++ Pass_Diagnostics fresh))
       | Panic => Panic
       end.
Proof.
  unfold bind. rewrite !run_exact.
  destruct (forallb fileOk files) eqn:Hok; [|split; reflexivity].
  split; [reflexivity|].
  rewrite run_exact, Hok. reflexivity.
Qed.

(** X4.  Declarations at package level other than functions ([var],
    [const], [type], [import]) never yield a finding, whatever their
    initializers hold, function literals with a [*testing.T] parameter and
    deferred statements included: [run] walks through them and leaves the
    pass as it was. *)
Theorem package_level_declarations_are_silent (g : GenDecl) (pass : Pass) :
  walk_Decl run_func (DGenDecl g) pass
  = if complete_GenDecl g then Ok (tt, pass) else Panic.
Proof.
  simpl. destruct run_func_walk as (_ & _ & _ & _ & _ & _ & _ & _ & Hgen & _).
  rewrite Hgen. destruct (complete_GenDecl g); reflexivity.
Qed.

(** X5.  The walker on any body.  [checkDeferInTestFunc] fails exactly
    when a function literal with a test-context parameter that it reaches
    has no body; otherwise it appends one finding per reachable deferred
    statement, in source order, and changes nothing else.  Literals without
    test-context parameter may lack anything: they are not looked into. *)
Theorem walker_account (body : BlockStmt) (pass : Pass) :
  checkDeferInTestFunc (Some body) pass
  = if bodied_BlockStmt body
    then Ok (tt, mkPass (Pass_Files pass)
                        (Pass_Diagnostics pass
                         ++ findings (reachableDefers_BlockStmt body)))
    else Panic.
Proof.
  simpl. destruct check_exact as (_ & _ & _ & _ & _ & _ & _ & Hblock & _).
  rewrite Hblock. destruct (bodied_BlockStmt body); reflexivity.
Qed.

(** X6.  Only "Test" and "Benchmark" are recognized.  A function whose
    name starts with "Example" (which the comment in [isTestFunction]
    lists) or with "Fuzz" is not taken for a test function, and [run]
    reports nothing from it, whatever its parameters and body. *)
Theorem example_and_fuzz_are_not_tests (d : FuncDecl) (rest : string) (pass : Pass) :
  Ident_Name (FuncDecl_Name d) = "Example" ++ rest
  \/ Ident_Name (FuncDecl_Name d) = "Fuzz" ++ rest ->
  isTestFunction d = false
  /\ walk_Decl run_func (DFuncDecl d) pass
     = if complete_FuncDecl d then Ok (tt, pass) else Panic.
Proof.
  intros Hname.
  assert (Hfalse : isTestFunction d = false).
  { unfold isTestFunction.
    destruct Hname as [-> | ->]; simpl; rewrite !andb_false_r; reflexivity. }
  split; [exact Hfalse|].
  apply walk_FuncDecl_not_entry.
  intros [Hq _]. apply isTestFunction_spec in Hq. congruence.
Qed.

Lemma example_and_fuzz_are_not_tests_witness :
  let d := mkFuncDecl None (mkIdent "ExampleFoo")
                      (Fixtures.signature [Fixtures.param "t" Fixtures.ptrTestingT])
                      (Some (mkBlockStmt [Fixtures.deferCleanup 4])) in
  hasTestingTParam d = true
  /\ isTestFunction d = false
  /\ walk_Decl run_func (DFuncDecl d) (mkPass [] []) = Ok (tt, mkPass [] []).
Proof.
  intros d. split; [reflexivity|].
  exact (@example_and_fuzz_are_not_tests d "Foo" (mkPass [] []) (or_introl eq_refl)).
Defined.

(** X7.  Every finding is at a deferred statement, and no statement is
    reported twice.  When [run] returns, the positions it has added are,
    in order, positions of deferred statements of the files, each
    statement giving at most one of them: with pairwise distinct
    statement positions no position is reported twice, and a package
    without any deferred statement comes back unchanged. *)
Theorem findings_are_defers_each_once (pass pass' : Pass) :
  run pass = Ok (tt, pass') ->
  exists ps : list Pos,
    pass' = mkPass (Pass_Files pass) (Pass_Diagnostics pass ++ findings ps)
    /\ Subseq ps (flat_map allDefers_File (Pass_Files pass))
    /\ (NoDup (flat_map allDefers_File (Pass_Files pass)) -> NoDup ps)
    /\ (flat_map allDefers_File (Pass_Files pass) = [] -> pass' = pass).
Proof.
  destruct pass as [files diags]. rewrite run_exact. simpl.
  destruct (forallb fileOk files); [|discriminate].
  intros H. inversion H; subst pass'; clear H.
  assert (Hsub : Subseq (flat_map fileDefers files) (flat_map allDefers_File files)).
  { apply Subseq_flat_map. apply fileDefers_allDefers. }
  exists (flat_map fileDefers files). split; [reflexivity|].
  split; [exact Hsub|]. split.
  - intros Hnd. eapply Subseq_NoDup; eassumption.
  - intros Hnone. rewrite Hnone in Hsub. apply Subseq_nil_r in Hsub.
    rewrite Hsub. simpl. rewrite app_nil_r. reflexivity.
Qed.

Lemma findings_are_defers_each_once_witness :
  let files :=
    [mkFile (mkIdent "a")
       [Fixtures.funcDecl "TestA" [Fixtures.param "t" Fixtures.ptrTestingT]
          [Fixtures.deferCleanup 1;
           ExprStmt (Fixtures.funcLit [] [Fixtures.deferCleanup 2]);
           ExprStmt (Fixtures.funcLit [Fixtures.param "t" Fixtures.ptrTestingT]
                                      [Fixtures.deferCleanup 3])];
        Fixtures.funcDecl "helper" [] [Fixtures.deferCleanup 4]]] in
  flat_map allDefers_File files = [1; 2; 3; 4]%Z
  /\ exists ps : list Pos,
       mkPass files (findings [1; 3]%Z) = mkPass files ([] ++ findings ps)
       /\ Subseq ps (flat_map allDefers_File files)
       /\ (NoDup (flat_map allDefers_File files) -> NoDup ps)
       /\ (flat_map allDefers_File files = [] ->
           mkPass files (findings [1; 3]%Z) = mkPass files []).
Proof.
  intros files. split; [reflexivity|].
  exact (@findings_are_defers_each_once
           (mkPass files []) (mkPass files (findings [1; 3]%Z)) eq_refl).
Defined.

(** X8.  [run] succeeds on every package in which each function literal
    has a signature and a body and each declaration taken for a test has a
    body. *)
Theorem run_succeeds_on_runnable_files (files : list File) (diags : list Diagnostic) :
  forallb runnableFile files = true ->
  run (mkPass files diags)
  = Ok (tt, mkPass files (diags ++ findings (flat_map fileDefers files))).
Proof.
  intros Hfit. rewrite run_exact.
  replace (forallb fileOk files) with true; [reflexivity|].
  symmetry. apply forallb_forall. intros file Hin.
  apply runnableFile_fileOk. eapply forallb_forall in Hfit; eassumption.
Qed.

Lemma run_succeeds_on_runnable_files_witness :
  let files :=
    [mkFile (mkIdent "a")
       [Fixtures.funcDecl "TestA" [Fixtures.param "t" Fixtures.ptrTestingT]
          [Fixtures.deferCleanup 1];
        Fixtures.funcDecl "helper" [] [Fixtures.deferCleanup 4]];
     mkFile (mkIdent "a")
       [Fixtures.funcDecl "BenchmarkB" [Fixtures.param "b" Fixtures.ptrTestingB]
          [ForStmt None None None (mkBlockStmt [Fixtures.deferCleanup 7])]]] in
  run (mkPass files []) = Ok (tt, mkPass files (findings [1; 7]%Z)).
Proof.
  intros files.
  exact (@run_succeeds_on_runnable_files files [] eq_refl).
Defined.

(** X9.  Files are analyzed independently and in order: running over two
    lists of files joined is running over the first and then, from the
    diagnostics so obtained, over the second; it fails when either does. *)
Theorem run_over_joined_files (files1 files2 : list File) (diags : list Diagnostic) :
  run (mkPass (files1 ++ files2) diags)
  = match run (mkPass files1 diags) with
    | Ok (_, pass1) =>
      match run (mkPass files2 (Pass_Diagnostics pass1)) with
      | Ok (_, pass2) => Ok (tt, mkPass (files1 ++ files2) (Pass_Diagnostics pass2))
      | Panic => Panic
      end
    | Panic => Panic
    end.
Proof.
  rewrite !run_exact. rewrite forallb_app, flat_map_app.
  destruct (forallb fileOk files1); simpl; [|reflexivity].
  rewrite run_exact.
  destruct (forallb fileOk files2); simpl; [|reflexivity].
  unfold findings. rewrite map_app, app_assoc. reflexivity.
Qed.
